(** * Cloud data engineering pipeline: transform engine, quality validator
      and orchestrator of [src/etl/pipeline.py]

    The development embeds [CloudDataPipeline.transform],
    [CloudDataPipeline.validate_data_quality], [extract_from_s3],
    [load_to_s3] and [run_etl_pipeline].

    - Python objects that the code shares and updates in place (data frames)
      live in a store and are handled through their location.
    - Exceptions are an explicit outcome, [Raise]; every stateful function
      returns its outcome together with the store it leaves behind.
    - The calls into the tabular-data library are modelled after the
      documented behaviour of that library where a property of the pipeline
      depends on it ([copy], [dropna], [rename], column selection and
      assignment, [isnull], [duplicated], comparison of an integer column
      with an integer); every other call is a method of the class [Engine],
      about which nothing is assumed.
    - The object store is a map from bucket and key to bytes, behind a
      service that may refuse a write. *)

From Stdlib Require Import ZArith QArith String Ascii List DecimalString.
From stdpp Require Import base option list gmap strings.

Close Scope Q_scope.
Open Scope Z_scope.
Open Scope nat_scope.

(** ** Values *)

(** A Python scalar, as found in a cell of a frame or in a descriptor.
    [VNone] stands for the null of the tabular-data library: [None] and
    [NaN] alike for [isnull] and [dropna], and a column is taken to hold one
    kind of null.  Numbers are the integers. *)
Inductive value : Type :=
  | VNone
  | VBool (b : bool)
  | VInt (z : Z)
  | VStr (s : string).

#[global] Instance value_eq_dec : EqDecision value.
Proof. solve_decision. Defined.

(** Python compares and hashes a boolean as the integer it is: [True == 1]
    and [False == 0].  [canonical v] stands for every value that Python
    finds equal to [v]: two scalars are equal for Python exactly when their
    canonical values are the same. *)
Definition canonical (v : value) : value :=
  match v with
  | VBool b => VInt (Z.b2z b)
  | _ => v
  end.

(** What a key of a descriptor may hold: a scalar, a list of names or a
    dictionary from names to names. *)
Inductive pyval : Type :=
  | Scalar (v : value)
  | Names (l : list string)
  | Mapping (m : gmap string string).

(** A descriptor (a transformation or a validation rule) is a Python
    [dict] with string keys. *)
Abbreviation descriptor := (gmap string pyval).

(** [d.get(k, dflt)] and [d.get(k)]. *)
Definition get_default (d : descriptor) (k : string) (dflt : pyval) : pyval :=
  default dflt (d !! k).

Definition get (d : descriptor) (k : string) : pyval :=
  get_default d k (Scalar VNone).

(** [v == 'name'] for a string literal. *)
Definition is_str (v : pyval) (name : string) : bool :=
  match v with
  | Scalar (VStr s) => String.eqb s name
  | _ => false
  end.

(** ** Frames *)

Abbreviation Series := (list value).

(** A frame: the row labels and the columns in their order, each with its
    label.  Labels are strings and may repeat, as the library allows. *)
Record DataFrame : Type := mkDataFrame {
  index : list Z;
  columns : list (string * Series)
}.

Definition labels (df : DataFrame) : list string := (columns df).*1.

(** [len(df)] *)
Definition len (df : DataFrame) : nat := length (index df).

(** What [df[key]] evaluates to: a series when the key names one column, a
    frame of the selected columns otherwise. *)
Inductive selection : Type :=
  | OneSeries (s : Series)
  | SubFrame (cols : list Series).

(** ** Outcomes *)

Inductive exn : Type :=
  | KeyError         (* a label that names no column *)
  | NameError        (* a name in an expression that nothing is bound to *)
  | ValueError
  | TypeError
  | AttributeError
  | ClientError      (* raised by the storage client *)
  | ReferenceError   (* a location outside the store; never raised by the pipeline *)
  | EngineError (msg : string).

Inductive result (A : Type) : Type :=
  | Ok (a : A)
  | Raise (e : exn).
Arguments Ok {A} a.
Arguments Raise {A} e.

Definition result_bind {A B} (r : result A) (k : A → result B) : result B :=
  match r with
  | Ok a => k a
  | Raise e => Raise e
  end.

#[global] Instance result_ret : MRet result := @Ok.
#[global] Instance result_mbind : MBind result := λ A B k r, result_bind r k.

Inductive comparison_op : Type := Below | Above.

Abbreviation blob := string (only parsing).

(** ** The tabular-data engine

    The calls whose result the pipeline only passes on.  Nothing is assumed
    about them: each may return any frame or raise. *)
Class Engine : Type := {
  (** [df.fillna(value)] *)
  fillna : pyval → DataFrame → result DataFrame;
  (** [df.query(condition)] *)
  query : pyval → DataFrame → result DataFrame;
  (** [df.groupby(group_by).agg(agg_dict).reset_index()] *)
  groupby_agg : pyval → pyval → DataFrame → result DataFrame;
  (** [.astype(dtype)] on the columns selected by a label *)
  astype : pyval → list Series → result (list Series);
  (** a method called with arguments of a shape not modelled below
      (for instance [rename(columns=None)]) *)
  frame_other : string → list pyval → DataFrame → result DataFrame;
  (** [df[key]] for a key that is a dictionary *)
  getitem_other : pyval → DataFrame → result selection;
  (** [series < bound] and [series > bound] outside integer columns
      compared with an integer *)
  compare_other : comparison_op → Series → pyval → result (list bool);
  (** [len(df[(df[column] < min) | (df[column] > max)])] when [df[column]]
      is itself a frame *)
  range_frame : DataFrame → list Series → pyval → pyval → result nat;
  read_csv : blob → result DataFrame;
  read_parquet : blob → result DataFrame;
  read_json : blob → result DataFrame;
  to_parquet : DataFrame → result blob;
  to_csv : DataFrame → result blob;
  to_json : DataFrame → result blob
}.

(** ** The modelled part of the tabular-data library *)

Module pd.

(** [isnull] on a cell *)
Definition isnull (v : value) : bool :=
  match v with
  | VNone => true
  | _ => false
  end.

(** Keep the entries of [l] whose flag is set: boolean indexing. *)
Fixpoint select {A} (mask : list bool) (l : list A) : list A :=
  match mask, l with
  | b :: mask', x :: l' => if b then x :: select mask' l' else select mask' l'
  | _, _ => []
  end.

Definition select_rows (mask : list bool) (df : DataFrame) : DataFrame :=
  {| index := select mask (index df);
     columns := prod_map id (select mask) <$> columns df |}.

(** Row [i] has no null in any of [cols]. *)
Definition row_notna (cols : list Series) (i : nat) : bool :=
  forallb (λ col : Series,
             match col !! i with
             | Some v => negb (isnull v)
             | None => true
             end) cols.

Definition notna_mask (cols : list Series) (n : nat) : list bool :=
  row_notna cols <$> seq 0 n.

(** The columns of [df] that bear the label [c], in order. *)
Definition lookup_label (c : string) (df : DataFrame) : list Series :=
  (filter (λ p, p.1 = c) (columns df)).*2.

Definition has_label (df : DataFrame) (c : string) : bool :=
  bool_decide (c ∈ labels df).

(** [df.dropna(subset=cs)] for a list of labels: a label that names no
    column raises [KeyError]; otherwise the rows with a null under one of
    the labels are dropped. *)
Definition dropna_subset (cs : list string) (df : DataFrame) : result DataFrame :=
  if forallb (has_label df) cs then
    let cols := (filter (λ p, p.1 ∈ cs) (columns df)).*2 in
    Ok (select_rows (notna_mask cols (len df)) df)
  else Raise KeyError.

(** [df.dropna(subset=subset)]: [None] means every column, a string is a
    single label.  A scalar that is no string names no column. *)
Definition dropna `{Engine} (subset : pyval) (df : DataFrame) : result DataFrame :=
  match subset with
  | Scalar VNone => Ok (select_rows (notna_mask (columns df).*2 (len df)) df)
  | Scalar (VStr c) => dropna_subset [c] df
  | Scalar _ => Raise KeyError
  | Names cs => dropna_subset cs df
  | Mapping _ => frame_other "dropna" [subset] df
  end.

(** [df.rename(columns=mapping)] for a dictionary: every label that is a
    key is replaced by its image, all at once; keys that name no column are
    ignored (the library's default, [errors='ignore']). *)
Definition rename_label (m : gmap string string) (c : string) : string :=
  default c (m !! c).

Definition rename_columns (m : gmap string string) (df : DataFrame) : DataFrame :=
  {| index := index df; columns := prod_map (rename_label m) id <$> columns df |}.

Definition rename `{Engine} (mapping : pyval) (df : DataFrame) : result DataFrame :=
  match mapping with
  | Mapping m => Ok (rename_columns m df)
  | _ => frame_other "rename" [mapping] df
  end.

(** [df[key]] *)
Definition getitem `{Engine} (key : pyval) (df : DataFrame) : result selection :=
  match key with
  | Scalar (VStr c) =>
      match lookup_label c df with
      | [] => Raise KeyError
      | [s] => Ok (OneSeries s)
      | cols => Ok (SubFrame cols)
      end
  | Scalar _ => Raise KeyError
  | Names cs =>
      if forallb (has_label df) cs
      then Ok (SubFrame (cs ≫= λ c, lookup_label c df))
      else Raise KeyError
  | Mapping _ => getitem_other key df
  end.

(** [df[c] = v] for a scalar [v]: every column labelled [c] is overwritten
    with [v] on every row; when there is none, a new last column is added. *)
Definition setitem_scalar (c : string) (v : value) (df : DataFrame) : DataFrame :=
  let col := replicate (len df) v in
  {| index := index df;
     columns :=
       if has_label df c
       then (λ p : string * Series, if decide (p.1 = c) then (c, col) else p) <$> columns df
       else columns df ++ [(c, col)] |}.

(** [df[key] = value] *)
Definition setitem `{Engine} (key value : pyval) (df : DataFrame) : result DataFrame :=
  match key, value with
  | Scalar (VStr c), Scalar v => Ok (setitem_scalar c v df)
  | _, _ => frame_other "setitem" [key; value] df
  end.

(** Put [new] in place of the columns labelled [c], one after the other. *)
Fixpoint replace_columns (c : string) (new : list Series)
    (cols : list (string * Series)) : list (string * Series) :=
  match cols with
  | [] => []
  | p :: cols' =>
      if decide (p.1 = c) then
        match new with
        | s :: new' => (c, s) :: replace_columns c new' cols'
        | [] => p :: replace_columns c [] cols'
        end
      else p :: replace_columns c new cols'
  end.

(** [duplicated()] with the default [keep='first']: an entry is flagged
    when an equal entry was seen before it.  Entries are equal as Python
    finds them equal, so [True] repeats [1]; on a frame, rows are equal
    when they are so cell by cell. *)
Fixpoint duplicated_from {A} `{EqDecision A} (seen : list A) (l : list A) : list bool :=
  match l with
  | [] => []
  | x :: l' => bool_decide (x ∈ seen) :: duplicated_from (x :: seen) l'
  end.

Definition duplicated (s : Series) : list bool :=
  duplicated_from [] (canonical <$> s).

Definition duplicated_rows (rows : list (list (option value))) : list bool :=
  duplicated_from []
    ((λ row : list (option value), (λ cell : option value, canonical <$> cell) <$> row)
       <$> rows).

(** [.sum()] of a boolean series *)
Definition sum (mask : list bool) : nat := length (filter (λ b, b = true) mask).

(** The rows of a frame given by its columns, [n] rows. *)
Definition rows (cols : list Series) (n : nat) : list (list (option value)) :=
  (λ i, (λ col : Series, col !! i) <$> cols) <$> seq 0 n.

(** An integer column: integers and nulls only. *)
Definition numeric (s : Series) : bool :=
  forallb (λ v, match v with VInt _ | VNone => true | _ => false end) s.

(** [cell < bound] and [cell > bound] on an integer column; a null
    compares false. *)
Definition compare_cell (op : comparison_op) (bound : Z) (v : value) : bool :=
  match v with
  | VInt z => match op with Below => (z <? bound)%Z | Above => (bound <? z)%Z end
  | _ => false
  end.

Definition compare `{Engine} (op : comparison_op) (s : Series) (bound : pyval)
    : result (list bool) :=
  match bound with
  | Scalar (VInt b) =>
      if numeric s then Ok (compare_cell op b <$> s)
      else compare_other op s bound
  | _ => compare_other op s bound
  end.

(** [a | b] on boolean series *)
Definition or_mask (a b : list bool) : list bool := zip_with orb a b.

End pd.

(** ** The store and the monad of the pipeline *)

Abbreviation loc := nat (only parsing).

(** The world a pipeline runs in: the frames allocated so far (a frame's
    location is its position), the buckets of the object store, the writes
    that the storage service accepts ([accepts bucket key body]; it may
    refuse one for want of permission or room), and the wall clock:
    [clock n] is the [n]-th reading of [datetime.now()], in microseconds. *)
Record world : Type := mkWorld {
  frames : list DataFrame;
  s3 : gmap string (gmap string blob);
  clock : nat → Z;
  ticks : nat;
  accepts : string → string → blob → bool
}.

Definition set_frames (f : list DataFrame → list DataFrame) (w : world) : world :=
  {| frames := f (frames w); s3 := s3 w; clock := clock w; ticks := ticks w;
     accepts := accepts w |}.

Definition set_s3 (f : gmap string (gmap string blob) → gmap string (gmap string blob))
    (w : world) : world :=
  {| frames := frames w; s3 := f (s3 w); clock := clock w; ticks := ticks w;
     accepts := accepts w |}.

Definition M (A : Type) : Type := world → result A * world.

#[global] Instance M_ret : MRet M := λ A a w, (Ok a, w).

#[global] Instance M_bind : MBind M := λ A B k c w,
  match c w with
  | (Ok a, w') => k a w'
  | (Raise e, w') => (Raise e, w')
  end.

Definition raise {A} (e : exn) : M A := λ w, (Raise e, w).

Definition lift {A} (r : result A) : M A := λ w, (r, w).

(** A new object. *)
Definition alloc (df : DataFrame) : M loc :=
  λ w, (Ok (length (frames w)), set_frames (λ fs, fs ++ [df]) w).

(** The frame a reference points to. *)
Definition load (l : loc) : M DataFrame :=
  λ w, match frames w !! l with
       | Some df => (Ok df, w)
       | None => (Raise ReferenceError, w)
       end.

(** Update of an object in place: every reference to [l] sees it. *)
Definition store (l : loc) (df : DataFrame) : M unit :=
  λ w, (Ok (), set_frames (λ fs, <[l := df]> fs) w).

(** A method that returns a new frame and leaves its receiver alone. *)
Definition call (f : DataFrame → result DataFrame) (l : loc) : M loc :=
  df ← load l; r ← lift (f df); alloc r.

(** A statement that changes the frame behind [l] in place: every
    reference to [l] sees the change. *)
Definition update (f : DataFrame → result DataFrame) (l : loc) : M loc :=
  df ← load l; df' ← lift (f df); _ ← store l df'; mret l.

(** [df.copy()] *)
Definition copy (l : loc) : M loc := call Ok l.

(** [len(df)] on a reference *)
Definition len_of (l : loc) : M nat := df ← load l; mret (len df).

(** [datetime.now()] *)
Definition now : M Z :=
  λ w, (Ok (clock w (ticks w)),
        {| frames := frames w; s3 := s3 w; clock := clock w; ticks := S (ticks w);
           accepts := accepts w |}).

(** [w'] still holds the first [n] frames of [w], unchanged. *)
Definition keeps (n : nat) (w w' : world) : Prop :=
  take n (frames w') = take n (frames w) ∧ n ≤ length (frames w').

(** ** CloudDataPipeline *)

Record CloudDataPipeline : Type := mkPipeline {
  cloud_provider : string;
  bucket_name : option string;
  region : string
}.

(** [__init__]: only ['aws'] and ['gcp'] are providers. *)
Definition init (cloud_provider : string) (bucket_name : option string) (region : string)
    : result CloudDataPipeline :=
  if String.eqb cloud_provider "aws" then Ok (mkPipeline cloud_provider bucket_name region)
  else if String.eqb cloud_provider "gcp" then Ok (mkPipeline cloud_provider bucket_name region)
  else Raise ValueError.

(** [self.s3_client] exists only on a pipeline built for ['aws']. *)
Definition s3_client (self : CloudDataPipeline) : M unit :=
  if String.eqb (cloud_provider self) "aws" then mret () else raise AttributeError.

(** The requests of the storage client.  A bucket name that is [None]
    fails the client's check of the name with [TypeError], before anything
    is sent; a missing bucket or key is an error of the client, and so is a
    write that the service refuses.  A refused write leaves the bucket as
    it was. *)
Definition s3_get (bucket : option string) (key : string) : M blob :=
  λ w, match bucket with
       | Some b =>
           match s3 w !! b with
           | Some objs =>
               match objs !! key with
               | Some body => (Ok body, w)
               | None => (Raise ClientError, w)
               end
           | None => (Raise ClientError, w)
           end
       | None => (Raise TypeError, w)
       end.

Definition s3_put (bucket : option string) (key : string) (body : blob) : M unit :=
  λ w, match bucket with
       | Some b =>
           match s3 w !! b with
           | Some objs =>
               if accepts w b key body
               then (Ok (), set_s3 (λ m, <[b := <[key := body]> objs]> m) w)
               else (Raise ClientError, w)
           | None => (Raise ClientError, w)
           end
       | None => (Raise TypeError, w)
       end.

Definition get_object (self : CloudDataPipeline) (key : string) : M blob :=
  _ ← s3_client self; s3_get (bucket_name self) key.

Definition put_object (self : CloudDataPipeline) (key : string) (body : blob) : M unit :=
  _ ← s3_client self; s3_put (bucket_name self) key body.

(** [key.endswith(suffix)] *)
Definition endswith (key suffix : string) : bool :=
  let n := String.length key in
  let k := String.length suffix in
  (k <=? n) && String.eqb (substring (n - k) k key) suffix.

Section Pipeline.
Context `{Engine}.

Definition extract_from_s3 (self : CloudDataPipeline) (key : string) : M loc :=
  obj ← get_object self key;
  df ← (if endswith key ".csv" then lift (read_csv obj)
        else if endswith key ".parquet" then lift (read_parquet obj)
        else if endswith key ".json" then lift (read_json obj)
        else raise ValueError);
  alloc df.

(** [df[col_name].astype(dtype)] put back under [col_name]: the selection
    raises [KeyError] when no column bears the label. *)
Definition convert_column (col_name dtype : pyval) (df : DataFrame) : result DataFrame :=
  match col_name with
  | Scalar (VStr c) =>
      match pd.lookup_label c df with
      | [] => Raise KeyError
      | cols =>
          cols' ← astype dtype cols;
          if length cols' =? length cols
          then Ok {| index := index df;
                     columns := pd.replace_columns c cols' (columns df) |}
          else Raise ValueError
      end
  | Scalar _ => Raise KeyError
  | _ => frame_other "convert_type" [col_name; dtype] df
  end.

(** One turn of the loop of [transform]; [cur] is the frame the variable
    [df_transformed] refers to, the result is the frame it refers to
    afterwards.  The first five operations bind the variable to the new
    frame their method returns; the last two assign a column of the frame
    in place. *)
Definition apply_transform (transform : descriptor) (cur : loc) : M loc :=
  let operation := get transform "operation" in
  if is_str operation "drop_nulls" then
    call (pd.dropna (get_default transform "columns" (Scalar VNone))) cur
  else if is_str operation "fill_nulls" then
    call (fillna (get_default transform "value" (Scalar (VInt 0)))) cur
  else if is_str operation "rename" then
    call (pd.rename (get_default transform "mapping" (Mapping ∅))) cur
  else if is_str operation "filter" then
    let condition := get transform "condition" in
    call (query condition) cur
  else if is_str operation "aggregate" then
    let group_by := get_default transform "group_by" (Names []) in
    let agg_dict := get_default transform "aggregations" (Mapping ∅) in
    call (groupby_agg group_by agg_dict) cur
  else if is_str operation "add_column" then
    let col_name := get transform "name" in
    let col_value := get transform "value" in
    update (pd.setitem col_name col_value) cur
  else if is_str operation "convert_type" then
    let col_name := get transform "column" in
    let dtype := get transform "dtype" in
    update (convert_column col_name dtype) cur
  else mret cur.

Fixpoint apply_all (transformations : list descriptor) (cur : loc) : M loc :=
  match transformations with
  | [] => mret cur
  | transform :: rest => cur' ← apply_transform transform cur; apply_all rest cur'
  end.

(** [transform(df, transformations)]; [None] is the omitted argument. *)
Definition transform (df : loc) (transformations : option (list descriptor)) : M loc :=
  df_transformed ← copy df;
  match transformations with
  | Some ((_ :: _) as ts) => apply_all ts df_transformed
  | _ => mret df_transformed
  end.

Definition load_to_s3 (self : CloudDataPipeline) (df : loc) (key : string)
    (format : string) : M unit :=
  d ← load df;
  if String.eqb format "parquet" then
    buffer ← lift (to_parquet d); put_object self key buffer
  else if String.eqb format "csv" then
    buffer ← lift (to_csv d); put_object self key buffer
  else if String.eqb format "json" then
    buffer ← lift (to_json d); put_object self key buffer
  else raise ValueError.

(** The dictionary [stats].  Durations are exact: a difference of two
    clock readings is a whole number of microseconds, and
    [total_seconds()] divides it by [10^6]. *)
Record stats : Type := mkStats {
  input_rows : nat;
  output_rows : nat;
  duration_seconds : Q;
  rows_per_second : Q;
  source : string;
  destination : string
}.

Definition total_seconds (microseconds : Z) : Q := Qmake microseconds 1000000.

Definition run_etl_pipeline (self : CloudDataPipeline) (source_key destination_key : string)
    (transformations : option (list descriptor)) (output_format : string) : M stats :=
  start_time ← now;
  df ← extract_from_s3 self source_key;
  input_rows ← len_of df;
  df_transformed ← transform df transformations;
  output_rows ← len_of df_transformed;
  _ ← load_to_s3 self df_transformed destination_key output_format;
  end_time ← now;
  let duration := total_seconds (end_time - start_time) in
  mret {| input_rows := input_rows;
          output_rows := output_rows;
          duration_seconds := duration;
          rows_per_second :=
            if Qlt_le_dec 0 duration
            then (inject_Z (Z.of_nat output_rows) / duration)%Q
            else 0%Q;
          source := source_key;
          destination := destination_key |}.

End Pipeline.

(** ** The quality validator *)

(** The dictionary [results].  [pass_rate] is the exact quotient that the
    division of the two lengths denotes. *)
Record report : Type := mkReport {
  passed : list descriptor;
  failed : list descriptor;
  total_rules : nat;
  pass_rate : Q
}.

(** [f"{n}{what}"], for instance ["2 values out of range"]. *)
Definition count_message (n : nat) (what : string) : string :=
  NilZero.string_of_uint (Nat.to_uint n) +:+ what.

(** The rule as it stands in [failed]: annotated under ['error']. *)
Definition annotated (rule : descriptor) (count : nat) (what : string) : descriptor :=
  <["error" := Scalar (VStr (count_message count what))]> rule.

(** The end of every branch of the loop: the rule joins [passed] when the
    count is zero; otherwise it is annotated and joins [failed].  In the
    source the lists hold references to the caller's dictionaries and the
    annotation is written into the caller's rule; the report reads the same
    either way, because what a rule counts does not depend on its ['error']
    key. *)
Definition record_rule (rule : descriptor) (count : nat) (what : string)
    (acc : list descriptor * list descriptor) : list descriptor * list descriptor :=
  if count =? 0 then (acc.1 ++ [rule], acc.2)
  else (acc.1, acc.2 ++ [annotated rule count what]).

(** The rule types that the loop handles. *)
Definition rule_types : list string := ["not_null"; "unique"; "range"].

Definition known_type (rule : descriptor) : bool :=
  existsb (is_str (get rule "type")) rule_types.

Section Validator.
Context `{Engine}.

(** [df[column].isnull().sum()]; when the selection is a frame the sum is a
    series, and the test [null_count == 0] that follows has no truth value. *)
Definition null_count (df : DataFrame) (column : pyval) : result nat :=
  sel ← pd.getitem column df;
  match sel with
  | OneSeries s => Ok (pd.sum (pd.isnull <$> s))
  | SubFrame _ => Raise ValueError
  end.

(** [df[column].duplicated().sum()]; on a frame, rows are compared, and a
    frame without columns has no duplicates. *)
Definition duplicate_count (df : DataFrame) (column : pyval) : result nat :=
  sel ← pd.getitem column df;
  match sel with
  | OneSeries s => Ok (pd.sum (pd.duplicated s))
  | SubFrame [] => Ok 0
  | SubFrame cols => Ok (pd.sum (pd.duplicated_rows (pd.rows cols (len df))))
  end.

(** [len(df[(df[column] < min_val) | (df[column] > max_val)])] *)
Definition out_of_range (df : DataFrame) (column min_val max_val : pyval) : result nat :=
  sel ← pd.getitem column df;
  match sel with
  | OneSeries s =>
      below ← pd.compare Below s min_val;
      above ← pd.compare Above s max_val;
      Ok (pd.sum (pd.or_mask below above))
  | SubFrame cols => range_frame df cols min_val max_val
  end.

(** One turn of the loop of [validate_data_quality]. *)
Definition validate_rule (df : DataFrame) (rule : descriptor)
    (acc : list descriptor * list descriptor)
    : result (list descriptor * list descriptor) :=
  let rule_type := get rule "type" in
  if is_str rule_type "not_null" then
    let column := get rule "column" in
    n ← null_count df column;
    Ok (record_rule rule n " null values found" acc)
  else if is_str rule_type "unique" then
    let column := get rule "column" in
    n ← duplicate_count df column;
    Ok (record_rule rule n " duplicates found" acc)
  else if is_str rule_type "range" then
    let column := get rule "column" in
    let min_val := get rule "min" in
    let max_val := get rule "max" in
    n ← out_of_range df column min_val max_val;
    Ok (record_rule rule n " values out of range" acc)
  else Ok acc.

(** What the branch of a rule counts, with the words of its message;
    [None] for a rule that no branch handles. *)
Definition rule_count (df : DataFrame) (rule : descriptor) : result (option (nat * string)) :=
  let rule_type := get rule "type" in
  if is_str rule_type "not_null" then
    n ← null_count df (get rule "column"); Ok (Some (n, " null values found"))
  else if is_str rule_type "unique" then
    n ← duplicate_count df (get rule "column"); Ok (Some (n, " duplicates found"))
  else if is_str rule_type "range" then
    n ← out_of_range df (get rule "column") (get rule "min") (get rule "max");
    Ok (Some (n, " values out of range"))
  else Ok None.

Fixpoint validate_all (df : DataFrame) (rules : list descriptor)
    (acc : list descriptor * list descriptor)
    : result (list descriptor * list descriptor) :=
  match rules with
  | [] => Ok acc
  | rule :: rest => acc' ← validate_rule df rule acc; validate_all df rest acc'
  end.

(** [validate_data_quality(df, rules)]; the frame is only read. *)
Definition validate_data_quality (df : DataFrame) (rules : list descriptor)
    : result report :=
  acc ← validate_all df rules ([], []);
  Ok {| passed := acc.1;
        failed := acc.2;
        total_rules := length rules;
        pass_rate :=
          match rules with
          | [] => 0%Q
          | _ => (inject_Z (Z.of_nat (length acc.1)) / inject_Z (Z.of_nat (length rules)))%Q
          end |}.

End Validator.

(** ** The properties in the words of the specification *)

(** The operation kinds that [transform] names. *)
Definition supported_operations : list string :=
  ["drop_nulls"; "fill_nulls"; "rename"; "filter"; "aggregate"; "add_column";
   "convert_type"].

(** [kind] is one of [names], as a string. *)
Definition supported (names : list string) (kind : pyval) : Prop :=
  match kind with
  | Scalar (VStr name) => name ∈ names
  | _ => False
  end.

#[global] Instance supported_dec names kind : Decision (supported names kind).
Proof. destruct kind as [[]| |]; simpl; apply _. Defined.

(** How many times [v] occurs in [l]. *)
Definition occurrences {A} `{EqDecision A} (v : A) (l : list A) : nat :=
  length (filter (λ x, x = v) l).

(** The entries beyond the first occurrence of each value: every distinct
    value contributes its occurrences but one. *)
Definition beyond_first_occurrence {A} `{EqDecision A} (l : list A) : nat :=
  sum_list ((λ v, occurrences v l - 1) <$> remove_dups l).

(** A cell strictly below [lo] or strictly above [hi]. *)
Definition out_of_bounds (lo hi : Z) (v : value) : bool :=
  match v with
  | VInt z => (z <? lo)%Z || (hi <? z)%Z
  | _ => false
  end.

Definition violations (lo hi : Z) (s : Series) : nat :=
  length (filter (λ v, out_of_bounds lo hi v = true) s).

(** The number of distinct column labels of a frame. *)
Definition distinct_labels (df : DataFrame) : nat := length (remove_dups (labels df)).


(** ** Sample data *)

Definition sample_frame : DataFrame :=
  {| index := [0; 1; 2]%Z;
     columns := [("id", [VInt 1; VInt 2; VInt 3]);
                 ("value", [VInt 5; VInt (-3); VNone])] |}.

(** An engine for the examples: it decodes every CSV object to
    [sample_frame] and refuses the calls that the examples do not make. *)
Definition sample_engine : Engine :=
  {| fillna := λ _ _, Raise (EngineError "fillna");
     query := λ _ _, Raise (EngineError "query");
     groupby_agg := λ _ _ _, Raise (EngineError "groupby");
     astype := λ _ _, Raise (EngineError "astype");
     frame_other := λ _ _ _, Raise (EngineError "other");
     getitem_other := λ _ _, Raise (EngineError "getitem");
     compare_other := λ _ _ _, Raise (EngineError "compare");
     range_frame := λ _ _ _ _, Raise (EngineError "range");
     read_csv := λ _, Ok sample_frame;
     read_parquet := λ _, Raise (EngineError "read_parquet");
     read_json := λ _, Raise (EngineError "read_json");
     to_parquet := λ _, Ok "PAR1";
     to_csv := λ _, Raise (EngineError "to_csv");
     to_json := λ _, Raise (EngineError "to_json") |}.

Definition sample_world : world :=
  {| frames := [sample_frame];
     s3 := {["my-data-bucket" := {["raw/data.csv" := "id,value"]}]};
     clock := λ n, (1000000 * Z.of_nat n)%Z;
     ticks := 0;
     accepts := λ _ _ _, true |}.


(** [sample_world] once [transform] has copied its input. *)
Definition after_copy : world := set_frames (λ fs, fs ++ [sample_frame]) sample_world.

(** The same world with a clock that stands still. *)
Definition frozen_world : world :=
  {| frames := []; s3 := s3 sample_world; clock := λ _, 0%Z; ticks := 0;
     accepts := λ _ _ _, true |}.

Definition sample_pipeline : CloudDataPipeline :=
  {| cloud_provider := "aws"; bucket_name := Some "my-data-bucket";
     region := "us-east-1" |}.

Definition two_columns : DataFrame :=
  {| index := [0]%Z; columns := [("a", [VInt 1]); ("b", [VInt 2])] |}.

Definition two_columns_world : world :=
  {| frames := [two_columns]; s3 := ∅; clock := λ _, 0%Z; ticks := 0;
     accepts := λ _ _ _, true |}.

Definition op (kind : string) : descriptor := {["operation" := Scalar (VStr kind)]}.

Definition rename_a_to_b : descriptor :=
  <["mapping" := Mapping {["a" := "b"]}]> (op "rename").

Definition rename_a_to_c : descriptor :=
  <["mapping" := Mapping {["a" := "c"]}]> (op "rename").

(** What [rename_a_to_b] makes of [two_columns]. *)
Definition merged_columns : DataFrame :=
  {| index := [0]%Z; columns := [("b", [VInt 1]); ("b", [VInt 2])] |}.


Definition drop_absent : descriptor :=
  <["columns" := Names ["id"; "zz"]]> (op "drop_nulls").

Definition rule_on (type column : string) : descriptor :=
  {["type" := Scalar (VStr type); "column" := Scalar (VStr column)]}.

Definition range_rule (column : string) (lo hi : Z) : descriptor :=
  <["min" := Scalar (VInt lo)]> (<["max" := Scalar (VInt hi)]> (rule_on "range" column)).

Definition repeats : DataFrame :=
  {| index := [0; 1; 2; 3; 4; 5]%Z;
     columns := [("k", VInt <$> [1; 1; 2; 3; 3; 3]%Z)] |}.

(** A column of Python objects that holds an integer and a boolean. *)
Definition mixed_keys : DataFrame :=
  {| index := [0; 1]%Z; columns := [("k", [VInt 1; VBool true])] |}.

Definition readings : DataFrame :=
  {| index := [0; 1; 2; 3; 4]%Z;
     columns := [("x", VInt <$> [-1; 0; 5; 10; 11]%Z)] |}.


Definition add_date : descriptor :=
  <["name" := Scalar (VStr "processed_date")]>
    (<["value" := Scalar (VStr "2024-01-01")]> (op "add_column")).

(** A run that drops rows, adds a column in place and then fails on a
    column that is not there. *)
Definition sample_transformations : list descriptor :=
  [op "drop_nulls"; add_date; drop_absent].

Definition sample_rules : list descriptor :=
  [range_rule "x" 0 10; rule_on "not_null" "x"; rule_on "freshness" "x"].

Definition sample_report : report :=
  {| passed := [rule_on "not_null" "x"];
     failed := [annotated (range_rule "x" 0 10) 2 " values out of range"];
     total_rules := 3;
     pass_rate := Qmake 1 3 |}.

Definition sample_stats : stats :=
  {| input_rows := 3;
     output_rows := 2;
     duration_seconds := Qmake 1000000 1000000;
     rows_per_second := Qmake 2000000 1000000;
     source := "raw/data.csv";
     destination := "processed/data.parquet" |}.

Definition sample_run : M stats :=
  run_etl_pipeline (H:=sample_engine) sample_pipeline "raw/data.csv"
    "processed/data.parquet" (Some [op "drop_nulls"]) "parquet".

(** An engine whose cast returns the columns as they are and whose CSV
    serializer succeeds; otherwise as [sample_engine]. *)
Definition casting_engine : Engine :=
  {| fillna := fillna (Engine:=sample_engine);
     query := query (Engine:=sample_engine);
     groupby_agg := groupby_agg (Engine:=sample_engine);
     astype := λ _ cols, Ok cols;
     frame_other := frame_other (Engine:=sample_engine);
     getitem_other := getitem_other (Engine:=sample_engine);
     compare_other := compare_other (Engine:=sample_engine);
     range_frame := range_frame (Engine:=sample_engine);
     read_csv := read_csv (Engine:=sample_engine);
     read_parquet := read_parquet (Engine:=sample_engine);
     read_json := read_json (Engine:=sample_engine);
     to_parquet := to_parquet (Engine:=sample_engine);
     to_csv := λ _, Ok "id,value";
     to_json := to_json (Engine:=sample_engine) |}.




Definition rename_c_to_a : descriptor :=
  <["mapping" := Mapping {["c" := "a"]}]> (op "rename").

Definition drop_by_value : descriptor :=
  <["columns" := Names ["value"]]> (op "drop_nulls").

Definition convert_id : descriptor :=
  <["column" := Scalar (VStr "id")]> (<["dtype" := Scalar (VStr "int64")]> (op "convert_type")).

(** [sample_frame] without its row that has a null. *)
Definition clean_frame : DataFrame :=
  {| index := [0; 1]%Z;
     columns := [("id", [VInt 1; VInt 2]); ("value", [VInt 5; VInt (-3)])] |}.

(** The objects of the sample bucket. *)
Definition sample_objects : gmap string string := {["raw/data.csv" := "id,value"]}.

(** A bucket that also holds an object of no supported format. *)
Definition notes_objects : gmap string string :=
  {["raw/data.csv" := "id,value"; "raw/notes.txt" := "n"]}.

Definition notes_world : world :=
  {| frames := [];
     s3 := {["my-data-bucket" := notes_objects]};
     clock := λ _, 0%Z;
     ticks := 0;
     accepts := λ _ _ _, true |}.

(** [sample_world] once [sample_frame] is stored as Parquet. *)
Definition loaded_world : world :=
  set_s3 (λ m, <["my-data-bucket" := <["out/data.parquet" := "PAR1"]> sample_objects]> m)
    sample_world.

(** A run whose third operation raises, and a run with one operation of
    an unknown kind. *)
Definition failing_run : M stats :=
  run_etl_pipeline (H:=sample_engine) sample_pipeline "raw/data.csv"
    "processed/data.parquet" (Some sample_transformations) "parquet".

Definition copying_run : M stats :=
  run_etl_pipeline (H:=sample_engine) sample_pipeline "raw/data.csv"
    "processed/data.parquet" (Some [op "explode"]) "parquet".

Definition copied_stats : stats :=
  {| input_rows := 3;
     output_rows := 3;
     duration_seconds := Qmake 1000000 1000000;
     rows_per_second := Qmake 3000000 1000000;
     source := "raw/data.csv";
     destination := "processed/data.parquet" |}.

Definition known_rules : list descriptor :=
  [range_rule "x" 0 10; rule_on "not_null" "x"].

Definition known_report : report :=
  {| passed := [rule_on "not_null" "x"];
     failed := [annotated (range_rule "x" 0 10) 2 " values out of range"];
     total_rules := 2;
     pass_rate := Qmake 1 2 |}.

Definition one_passed : report :=
  {| passed := [rule_on "not_null" "x"]; failed := []; total_rules := 1;
     pass_rate := Qmake 1 1 |}.

Definition gcp_pipeline : CloudDataPipeline :=
  {| cloud_provider := "gcp"; bucket_name := Some "my-data-bucket";
     region := "us-east-1" |}.

(** ** Value-level views of the pipeline

    What the stateful functions compute, as functions of the values
    involved; the properties below relate them to the functions above. *)

Section Views.
Context `{Engine}.

(** What one operation makes of the frame it is applied to. *)
Definition effect (t : descriptor) (df : DataFrame) : result DataFrame :=
  let operation := get t "operation" in
  if is_str operation "drop_nulls" then
    pd.dropna (get_default t "columns" (Scalar VNone)) df
  else if is_str operation "fill_nulls" then
    fillna (get_default t "value" (Scalar (VInt 0))) df
  else if is_str operation "rename" then
    pd.rename (get_default t "mapping" (Mapping ∅)) df
  else if is_str operation "filter" then query (get t "condition") df
  else if is_str operation "aggregate" then
    groupby_agg (get_default t "group_by" (Names []))
      (get_default t "aggregations" (Mapping ∅)) df
  else if is_str operation "add_column" then
    pd.setitem (get t "name") (get t "value") df
  else if is_str operation "convert_type" then
    convert_column (get t "column") (get t "dtype") df
  else Ok df.

(** The operations of a list, one after the other, stopping at the first
    that raises. *)
Fixpoint effects (ts : list descriptor) (df : DataFrame) : result DataFrame :=
  match ts with
  | [] => Ok df
  | t :: rest => df' ← effect t df; effects rest df'
  end.

(** The parser that [extract_from_s3] picks for a key. *)
Definition decode (key : string) (body : blob) : result DataFrame :=
  if endswith key ".csv" then read_csv body
  else if endswith key ".parquet" then read_parquet body
  else if endswith key ".json" then read_json body
  else Raise ValueError.

(** The serializer that [load_to_s3] picks for a format. *)
Definition encode (format : string) (df : DataFrame) : result blob :=
  if String.eqb format "parquet" then to_parquet df
  else if String.eqb format "csv" then to_csv df
  else if String.eqb format "json" then to_json df
  else Raise ValueError.

(** The rule counts zero. *)
Definition passes (df : DataFrame) (rule : descriptor) : bool :=
  match rule_count df rule with
  | Ok (Some (0, _)) => true
  | _ => false
  end.

(** The annotated rule, when the rule counts more than zero. *)
Definition failure (df : DataFrame) (rule : descriptor) : option descriptor :=
  match rule_count df rule with
  | Ok (Some (S n, what)) => Some (annotated rule (S n) what)
  | _ => None
  end.

End Views.

(** The object that the client of [self] finds under [key]. *)
Definition object_at (self : CloudDataPipeline) (w : world) (key : string) : result blob :=
  if String.eqb (cloud_provider self) "aws" then
    match bucket_name self with
    | Some b =>
        match s3 w !! b with
        | Some objs =>
            match objs !! key with
            | Some body => Ok body
            | None => Raise ClientError
            end
        | None => Raise ClientError
        end
    | None => Raise TypeError
    end
  else Raise AttributeError.

(** The world after one reading of the clock. *)
Definition tick (w : world) : world :=
  {| frames := frames w; s3 := s3 w; clock := clock w; ticks := S (ticks w);
     accepts := accepts w |}.

(** [w'] has the bucket, the clock and the service of [w]. *)
Definition same_io (w w' : world) : Prop :=
  s3 w' = s3 w ∧ clock w' = clock w ∧ ticks w' = ticks w ∧ accepts w' = accepts w.

(** Every column has as many cells as the frame has rows. *)
Definition well_formed (df : DataFrame) : Prop :=
  Forall (λ p : string * Series, length p.2 = len df) (columns df).

(** No cell of the frame is null. *)
Definition no_nulls (df : DataFrame) : Prop :=
  ∀ c s v, (c, s) ∈ columns df → v ∈ s → v ≠ VNone.

(** The cells of row [i], each under the label of its column; a column
    that is too short has no cell there. *)
Definition cells (df : DataFrame) (i : nat) : list (string * option value) :=
  (λ p : string * Series, (p.1, p.2 !! i)) <$> columns df.

(** The rows of a frame, in order: the label of each row with its cells. *)
Definition records (df : DataFrame) : list (Z * list (string * option value)) :=
  imap (λ i z, (z, cells df i)) (index df).

(** A row without a null under any of the labels [cs], and a row without
    any null. *)
Definition complete_on (cs : list string) (r : Z * list (string * option value)) : Prop :=
  Forall (λ cell : string * option value, cell.1 ∈ cs → cell.2 ≠ Some VNone) r.2.

Definition complete (r : Z * list (string * option value)) : Prop :=
  Forall (λ cell : string * option value, cell.2 ≠ Some VNone) r.2.

#[global] Instance complete_on_dec cs r : Decision (complete_on cs r).
Proof. unfold complete_on. apply _. Defined.

#[global] Instance complete_dec r : Decision (complete r).
Proof. unfold complete. apply _. Defined.

(** A frame without its first row. *)
Definition rest (df : DataFrame) : DataFrame :=
  {| index := tail (index df); columns := prod_map id tail <$> columns df |}.

(** * Properties *)

(** ** The store *)

Ltac step :=
  unfold call, update, copy, len_of, load, lift, alloc, store, raise,
    mbind, M_bind, mret, M_ret in *;
  simpl in *.

Lemma keeps_refl n w : n ≤ length (frames w) → keeps n w w.
Proof. by split. Qed.

Lemma keeps_trans n w1 w2 w3 : keeps n w1 w2 → keeps n w2 w3 → keeps n w1 w3.
Proof. intros [E1 L1] [E2 L2]. split; [congruence|done]. Qed.

Lemma keeps_alloc n w df :
  n ≤ length (frames w) → keeps n w (set_frames (λ fs, fs ++ [df]) w).
Proof.
  intros Hn. split; simpl.
  - by rewrite take_app_le.
  - rewrite length_app. lia.
Qed.

Lemma keeps_store n w l df :
  n ≤ l → n ≤ length (frames w) → keeps n w (set_frames (λ fs, <[l := df]> fs) w).
Proof.
  intros Hl Hn. split; simpl.
  - by rewrite take_insert_ge.
  - by rewrite length_insert.
Qed.

Lemma keeps_lookup n w w' l df :
  keeps n w w' → l < n → frames w !! l = Some df → frames w' !! l = Some df.
Proof.
  intros [Heq _] Hl Hdf.
  rewrite <- (lookup_take_lt (frames w') n l) by done.
  rewrite Heq. by rewrite lookup_take_lt.
Qed.

(** A method call and an assignment in place, on a frame of the store. *)
Lemma call_run f l w df :
  frames w !! l = Some df →
  call f l w = match f df with
               | Ok df' => (Ok (length (frames w)), set_frames (λ fs, fs ++ [df']) w)
               | Raise e => (Raise e, w)
               end.
Proof. intros Hdf. step. rewrite Hdf. by destruct (f df). Qed.

Lemma update_run f l w df :
  frames w !! l = Some df →
  update f l w = match f df with
                 | Ok df' => (Ok l, set_frames (λ fs, <[l := df']> fs) w)
                 | Raise e => (Raise e, w)
                 end.
Proof. intros Hdf. step. rewrite Hdf. by destruct (f df). Qed.

Lemma call_keeps n f cur w out w' :
  n ≤ length (frames w) → call f cur w = (out, w') →
  keeps n w w' ∧ ∀ r, out = Ok r → n ≤ r.
Proof.
  intros Hn Hrun. step.
  destruct (frames w !! cur) as [df|]; [|simplify_eq; split; [by apply keeps_refl|done]].
  destruct (f df) as [df'|e]; simplify_eq.
  - split; [by apply keeps_alloc|]. intros r [= <-]. done.
  - split; [by apply keeps_refl|done].
Qed.

(** An assignment in place touches a frame of the caller only when the
    reference points to one. *)
Lemma update_keeps n f cur w out w' :
  n ≤ cur → n ≤ length (frames w) → update f cur w = (out, w') →
  keeps n w w' ∧ ∀ r, out = Ok r → n ≤ r.
Proof.
  intros Hcur Hn Hrun. step.
  destruct (frames w !! cur) as [df|]; [|simplify_eq; split; [by apply keeps_refl|done]].
  destruct (f df) as [df'|e]; simplify_eq.
  - split; [by apply keeps_store|]. intros r [= <-]. done.
  - split; [by apply keeps_refl|done].
Qed.

Section Transform.
Context `{Engine}.

Lemma apply_transform_keeps n t cur w out w' :
  n ≤ cur → n ≤ length (frames w) → apply_transform t cur w = (out, w') →
  keeps n w w' ∧ ∀ r, out = Ok r → n ≤ r.
Proof.
  intros Hcur Hn. unfold apply_transform.
  repeat (case_match; [by apply call_keeps|]).
  repeat (case_match; [by apply update_keeps|]).
  intros [= <- <-]. split; [by apply keeps_refl|]. by intros r [= <-].
Qed.

Lemma apply_all_keeps n ts cur w out w' :
  n ≤ cur → n ≤ length (frames w) → apply_all ts cur w = (out, w') →
  keeps n w w' ∧ ∀ r, out = Ok r → n ≤ r.
Proof.
  revert cur w. induction ts as [|t ts IH]; intros cur w Hcur Hn; simpl.
  - intros [= <- <-]. split; [by apply keeps_refl|]. by intros r [= <-].
  - unfold mbind, M_bind.
    destruct (apply_transform t cur w) as [[r1|e] w1] eqn:Ht;
      destruct (apply_transform_keeps n t cur w _ _ Hcur Hn Ht) as [Hk Hr].
    + intros Hrest. destruct (IH r1 w1 (Hr _ eq_refl) (proj2 Hk) Hrest) as [Hk' Hr'].
      split; [by eapply keeps_trans|done].
    + intros [= <- <-]. by split.
Qed.

(** The test [if transformations:] only spares a loop that would not
    turn. *)
Lemma transform_unfold df ts w :
  transform df ts w =
  (df_transformed ← copy df; apply_all (default [] ts) df_transformed) w.
Proof.
  unfold transform, mbind, M_bind. destruct (copy df w) as [[r|e] w1]; [|done].
  by destruct ts as [[|t ts]|].
Qed.

Lemma transform_keeps df ts w out w' :
  transform df ts w = (out, w') → keeps (length (frames w)) w w'.
Proof.
  rewrite transform_unfold. unfold mbind, M_bind.
  destruct (copy df w) as [[r|e] w1] eqn:Hcopy;
    destruct (call_keeps (length (frames w)) _ _ _ _ _ (le_n _) Hcopy) as [Hk Hr].
  - intros Hall.
    destruct (apply_all_keeps (length (frames w)) _ _ _ _ _ (Hr _ eq_refl) (proj2 Hk) Hall)
      as [Hk' _].
    by eapply keeps_trans.
  - by intros [= <- <-].
Qed.

Lemma apply_all_app pre post cur w :
  apply_all (pre ++ post) cur w =
  match apply_all pre cur w with
  | (Ok r, w1) => apply_all post r w1
  | (Raise e, w1) => (Raise e, w1)
  end.
Proof.
  revert cur w. induction pre as [|t pre IH]; intros cur w; simpl; [done|].
  unfold mbind, M_bind. destruct (apply_transform t cur w) as [[r|e] w1]; [apply IH|done].
Qed.

Lemma transform_app df pre post w :
  transform df (Some (pre ++ post)) w =
  match transform df (Some pre) w with
  | (Ok r, w1) => apply_all post r w1
  | (Raise e, w1) => (Raise e, w1)
  end.
Proof.
  rewrite !transform_unfold. simpl. unfold mbind, M_bind.
  destruct (copy df w) as [[r|e] w1]; [apply apply_all_app|done].
Qed.

Lemma transform_nothing w df T ts :
  frames w !! df = Some T → default [] ts = [] →
  transform df ts w = (Ok (length (frames w)), set_frames (λ fs, fs ++ [T]) w).
Proof.
  intros Hdf Hts. rewrite transform_unfold, Hts. unfold mbind, M_bind, copy.
  by rewrite (call_run _ _ _ _ Hdf).
Qed.

Lemma is_str_false v name : v ≠ Scalar (VStr name) → is_str v name = false.
Proof.
  destruct v as [[]| |]; simpl; try done.
  intros Hne. apply String.eqb_neq. congruence.
Qed.

Lemma unsupported_operation t cur :
  ¬ supported supported_operations (get t "operation") → apply_transform t cur = mret cur.
Proof.
  intros Hno. unfold apply_transform.
  assert (∀ name, name ∈ supported_operations → is_str (get t "operation") name = false)
    as Hf.
  { intros name Hin. apply is_str_false. intros Heq. apply Hno. by rewrite Heq. }
  rewrite !Hf; [done|unfold supported_operations; set_solver..].
Qed.

(** The dispatch of [apply_transform] once the kind is known. *)
Lemma apply_transform_kind t kind cur :
  get t "operation" = Scalar (VStr kind) →
  apply_transform t cur =
  (let operation := Scalar (VStr kind) in
   if is_str operation "drop_nulls" then
     call (pd.dropna (get_default t "columns" (Scalar VNone))) cur
   else if is_str operation "fill_nulls" then
     call (fillna (get_default t "value" (Scalar (VInt 0)))) cur
   else if is_str operation "rename" then
     call (pd.rename (get_default t "mapping" (Mapping ∅))) cur
   else if is_str operation "filter" then call (query (get t "condition")) cur
   else if is_str operation "aggregate" then
     call (groupby_agg (get_default t "group_by" (Names []))
             (get_default t "aggregations" (Mapping ∅))) cur
   else if is_str operation "add_column" then
     update (pd.setitem (get t "name") (get t "value")) cur
   else if is_str operation "convert_type" then
     update (convert_column (get t "column") (get t "dtype")) cur
   else mret cur).
Proof. intros Hop. unfold apply_transform. by rewrite Hop. Qed.

(** C1: with an empty or omitted list of transformations, [transform]
    returns a frame equal to its input. *)
Theorem transform_empty_is_identity w df T ts :
  frames w !! df = Some T → ts = None ∨ ts = Some [] →
  ∃ r w', transform df ts w = (Ok r, w') ∧ frames w' !! r = Some T.
Proof.
  intros Hdf Hts. eexists _, _. split.
  - apply transform_nothing; [done|]. by destruct Hts as [-> | ->].
  - simpl. by rewrite list_lookup_middle.
Qed.

(** C3: a descriptor whose kind is none of the seven supported ones is a
    no-op: a list with it behaves as the list without it, outcome and store
    alike, and on its own it returns a frame equal to the input. *)
Theorem transform_ignores_unknown_operation (t : descriptor) :
  ¬ supported supported_operations (get t "operation") →
  (∀ pre post df w,
     transform df (Some (pre ++ t :: post)) w = transform df (Some (pre ++ post)) w) ∧
  (∀ w df T, frames w !! df = Some T →
     ∃ r w', transform df (Some [t]) w = (Ok r, w') ∧ frames w' !! r = Some T).
Proof.
  intros Hno.
  assert (∀ pre post df w,
     transform df (Some (pre ++ t :: post)) w = transform df (Some (pre ++ post)) w)
    as Hskip.
  { intros pre post df w. rewrite !transform_app.
    destruct (transform df (Some pre) w) as [[r|e] w1]; [|done].
    simpl. by rewrite unsupported_operation. }
  split; [done|]. intros w df T Hdf.
  specialize (Hskip [] [] df w). simpl in Hskip. rewrite Hskip.
  eexists _, _. split; [by apply transform_nothing|].
  simpl. by rewrite list_lookup_middle.
Qed.

(** C10: whatever the transformations, and whether [transform] returns or
    raises, the frame passed in is afterwards what it was before. *)
Theorem transform_leaves_input_unchanged w df T ts out w' :
  frames w !! df = Some T → transform df ts w = (out, w') → frames w' !! df = Some T.
Proof.
  intros Hdf Hrun. eapply keeps_lookup; [by eapply transform_keeps| |done].
  by eapply lookup_lt_Some.
Qed.

End Transform.

(** ** Columns that an operation names *)

Section Columns.
Context `{Engine}.


Lemma lookup_label_absent c df : c ∉ labels df → pd.lookup_label c df = [].
Proof.
  unfold labels, pd.lookup_label. induction (columns df) as [|[c' s] cols IH]; [done|].
  rewrite fmap_cons, not_elem_of_cons. simpl. intros [Hne Hno].
  rewrite filter_cons. simpl. destruct (decide (c' = c)); [congruence|by apply IH].
Qed.


Lemma rename_run t m cur w df :
  get t "operation" = Scalar (VStr "rename") →
  get_default t "mapping" (Mapping ∅) = Mapping m →
  frames w !! cur = Some df →
  apply_transform t cur w =
  (Ok (length (frames w)), set_frames (λ fs, fs ++ [pd.rename_columns m df]) w).
Proof.
  intros Hop Hm Hdf. rewrite (apply_transform_kind _ _ _ Hop). simpl.
  rewrite Hm. by rewrite (call_run _ _ _ _ Hdf).
Qed.


Lemma labels_rename_columns m df :
  labels (pd.rename_columns m df) = pd.rename_label m <$> labels df.
Proof.
  unfold labels, pd.rename_columns. simpl. rewrite <- !list_fmap_compose. by apply list_fmap_ext.
Qed.

Lemma values_rename_columns m df :
  (columns (pd.rename_columns m df)).*2 = (columns df).*2.
Proof.
  unfold pd.rename_columns. simpl. rewrite <- !list_fmap_compose. by apply list_fmap_ext.
Qed.

Lemma remove_dups_fmap_length {A B} `{EqDecision A, EqDecision B}
    (f : A → B) (l : list A) :
  (∀ x y, x ∈ l → y ∈ l → f x = f y → x = y) →
  length (remove_dups (f <$> l)) = length (remove_dups l).
Proof.
  intros Hinj. rewrite <- (length_fmap f (remove_dups l)).
  apply Permutation_length, NoDup_Permutation.
  - apply NoDup_remove_dups.
  - apply NoDup_fmap_2_strong; [|apply NoDup_remove_dups].
    intros x y Hx Hy. rewrite !elem_of_remove_dups in Hx, Hy. by apply Hinj.
  - intros y. rewrite elem_of_remove_dups, !list_elem_of_fmap.
    by setoid_rewrite elem_of_remove_dups.
Qed.





(** C9, amended: [rename] keeps the number of columns, every cell and the
    row labels; a column whose label is no key of the mapping keeps its
    label at its position; when the renaming sends no two labels of the
    frame to the same label, the number of distinct labels is kept and
    labels that were pairwise distinct stay so. *)
Theorem rename_relabels_columns (t : descriptor) m df w T :
  frames w !! df = Some T →
  get t "operation" = Scalar (VStr "rename") →
  get_default t "mapping" (Mapping ∅) = Mapping m →
  ∃ r w' T',
    transform df (Some [t]) w = (Ok r, w') ∧ frames w' !! r = Some T' ∧
    length (columns T') = length (columns T) ∧
    (columns T').*2 = (columns T).*2 ∧
    index T' = index T ∧
    (∀ i c, labels T !! i = Some c → m !! c = None → labels T' !! i = Some c) ∧
    ((∀ c1 c2, c1 ∈ labels T → c2 ∈ labels T →
        pd.rename_label m c1 = pd.rename_label m c2 → c1 = c2) →
     distinct_labels T' = distinct_labels T ∧
     (NoDup (labels T) → NoDup (labels T'))).
Proof.
  intros Hdf Hop Hm. eexists _, _, (pd.rename_columns m T). split; [|split].
  - change [t] with ([] ++ [t]). rewrite transform_app.
    rewrite (transform_nothing w df T (Some [])) by done. simpl. unfold mbind, M_bind.
    rewrite (rename_run t m _ _ T); [done..|]. simpl. by rewrite list_lookup_middle.
  - simpl. rewrite (list_lookup_middle (frames w ++ [T]) []); [done|].
    rewrite length_app. simpl. lia.
  - split; [|split; [|split; [|split]]].
    + unfold pd.rename_columns. simpl. by rewrite length_fmap.
    + apply values_rename_columns.
    + done.
    + intros i c Hi Hc. rewrite labels_rename_columns, list_lookup_fmap, Hi. simpl.
      unfold pd.rename_label. by rewrite Hc.
    + intros Hinj. unfold distinct_labels. rewrite labels_rename_columns. split.
      * by apply remove_dups_fmap_length.
      * by apply NoDup_fmap_2_strong.
Qed.
End Columns.

(** ** Counting repeats and violations *)

Section Counting.
Context {A : Type} `{EqDecision A}.
Implicit Types l seen : list A.

Lemma sum_cons b mask : pd.sum (b :: mask) = (if b then 1 else 0) + pd.sum mask.
Proof. unfold pd.sum. rewrite filter_cons. by destruct b. Qed.

(** Flagged entries and first occurrences make up the list. *)
Lemma duplicated_from_count seen l :
  pd.sum (pd.duplicated_from seen l) +
    length (remove_dups (filter (λ x, x ∉ seen) l)) = length l.
Proof.
  revert seen. induction l as [|x l IH]; intros seen; [done|].
  simpl. rewrite sum_cons, filter_cons. specialize (IH (x :: seen)).
  destruct (decide (x ∈ seen)) as [Hin|Hout].
  - rewrite bool_decide_eq_true_2, decide_False by tauto.
    rewrite (list_filter_iff (λ y, y ∉ seen) (λ y, y ∉ x :: seen)); [lia|].
    intros y. rewrite not_elem_of_cons. split; [|tauto]. intros ?. split; [|done].
    by intros ->.
  - rewrite bool_decide_eq_false_2, decide_True by done.
    assert (length (remove_dups (x :: filter (λ y, y ∉ seen) l)) =
            S (length (remove_dups (filter (λ y, y ∉ x :: seen) l)))) as ->; [|lia].
    change (S (length ?k)) with (length (x :: k)).
    apply Permutation_length, NoDup_Permutation.
    + apply NoDup_remove_dups.
    + apply NoDup_cons. split; [|apply NoDup_remove_dups].
      rewrite elem_of_remove_dups, list_elem_of_filter, not_elem_of_cons. tauto.
    + intros y. rewrite elem_of_remove_dups, !elem_of_cons, elem_of_remove_dups,
        !list_elem_of_filter, not_elem_of_cons.
      destruct (decide (y = x)) as [->|]; tauto.
Qed.

Lemma duplicated_count l :
  pd.sum (pd.duplicated_from [] l) = length l - length (remove_dups l).
Proof.
  assert (filter (λ x, x ∉ []) l = l) as Hall.
  { induction l as [|x l IH]; [done|].
    rewrite filter_cons, decide_True by apply not_elem_of_nil. by f_equal. }
  pose proof (duplicated_from_count [] l) as Hc.
  rewrite Hall in Hc. lia.
Qed.

Lemma occurrences_cons v x l :
  occurrences v (x :: l) = (if decide (x = v) then 1 else 0) + occurrences v l.
Proof. unfold occurrences. rewrite filter_cons. by destruct (decide (x = v)). Qed.

Lemma sum_occurrences_cons (vs : list A) x l :
  NoDup vs →
  sum_list ((λ v, occurrences v (x :: l)) <$> vs) =
  (if decide (x ∈ vs) then 1 else 0) + sum_list ((λ v, occurrences v l) <$> vs).
Proof.
  induction vs as [|v vs IH]; [done|].
  rewrite NoDup_cons, !fmap_cons. intros [Hv Hvs]. cbn [sum_list].
  rewrite (IH Hvs), occurrences_cons.
  destruct (decide (x = v)) as [->|Hne].
  - rewrite (decide_True (P:=v ∈ v :: vs)) by left.
    rewrite (decide_False (P:=v ∈ vs)) by done.
    unfold id. lia.
  - destruct (decide (x ∈ vs)) as [Hin|Hout].
    + rewrite decide_True by (by right). unfold id. lia.
    + rewrite decide_False; [unfold id; lia|]. by intros [?|?]%elem_of_cons.
Qed.

(** Over a duplicate-free list that covers [l], the occurrences add up to
    the length of [l]. *)
Lemma sum_occurrences (vs l : list A) :
  NoDup vs → (∀ x, x ∈ l → x ∈ vs) →
  sum_list ((λ v, occurrences v l) <$> vs) = length l.
Proof.
  intros Hvs. induction l as [|x l IH]; intros Hcov.
  - clear Hvs Hcov. induction vs as [|v vs IHv]; [done|]. by rewrite fmap_cons.
  - rewrite sum_occurrences_cons by done.
    rewrite decide_True by (apply Hcov; left).
    rewrite IH by (intros y Hy; apply Hcov; by right). done.
Qed.

Lemma occurrences_pos v l : v ∈ l → 0 < occurrences v l.
Proof.
  intros Hin. unfold occurrences.
  assert (v ∈ filter (λ x, x = v) l) as Hf by (by apply list_elem_of_filter).
  destruct (filter (λ x, x = v) l); [by apply elem_of_nil in Hf|simpl; lia].
Qed.

Lemma sum_list_pred (f : A → nat) (vs : list A) :
  (∀ v, v ∈ vs → 0 < f v) →
  sum_list ((λ v, f v - 1) <$> vs) + length vs = sum_list (f <$> vs).
Proof.
  induction vs as [|v vs IH]; intros Hpos; [done|].
  specialize (IH (λ u Hu, Hpos u (list_elem_of_further _ _ _ Hu))).
  specialize (Hpos v (list_elem_of_here _ _)).
  rewrite !fmap_cons. simpl in *. unfold id in *. lia.
Qed.

Lemma beyond_first_count l :
  beyond_first_occurrence l = length l - length (remove_dups l).
Proof.
  unfold beyond_first_occurrence.
  pose proof (sum_list_pred (λ v, occurrences v l) (remove_dups l)) as Hsum.
  rewrite sum_occurrences in Hsum;
    [|apply NoDup_remove_dups|by intros x; rewrite elem_of_remove_dups].
  rewrite <- Hsum; [lia|].
  intros v. rewrite elem_of_remove_dups. apply occurrences_pos.
Qed.

Lemma duplicated_beyond_first l :
  pd.sum (pd.duplicated_from [] l) = beyond_first_occurrence l.
Proof. by rewrite duplicated_count, beyond_first_count. Qed.
End Counting.

Lemma sum_or_mask lo hi (s : list value) :
  pd.sum (pd.or_mask (pd.compare_cell Below lo <$> s) (pd.compare_cell Above hi <$> s)) =
  violations lo hi s.
Proof.
  unfold violations, pd.or_mask. induction s as [|v s IH]; [done|].
  rewrite !fmap_cons. cbn [zip_with]. rewrite sum_cons, filter_cons, IH.
  destruct v as [| |z|]; simpl; try done.
  destruct (z <? lo)%Z, (hi <? z)%Z; simpl; done.
Qed.

(** ** The loop of the validator *)

Section Rules.
Context `{Engine}.

Lemma validate_rule_count df rule acc :
  validate_rule df rule acc =
  match rule_count df rule with
  | Ok (Some (n, what)) => Ok (record_rule rule n what acc)
  | Ok None => Ok acc
  | Raise e => Raise e
  end.
Proof.
  unfold validate_rule, rule_count, mbind, result_mbind, result_bind.
  repeat case_match; simplify_eq; done.
Qed.

Lemma rule_count_unknown df rule : known_type rule = false → rule_count df rule = Ok None.
Proof.
  unfold known_type, rule_count. simpl. rewrite !orb_false_iff.
  by intros (-> & -> & -> & _).
Qed.

Lemma rule_count_known df rule o :
  known_type rule = true → rule_count df rule = Ok o → is_Some o.
Proof.
  unfold known_type, rule_count, mbind, result_mbind, result_bind. simpl.
  destruct (is_str (get rule "type") "not_null");
    [|destruct (is_str (get rule "type") "unique");
      [|destruct (is_str (get rule "type") "range"); [|done]]];
    intros _; [destruct (null_count _ _)|destruct (duplicate_count _ _)
              |destruct (out_of_range _ _ _ _)]; intros [= <-] || done; by eexists.
Qed.

Lemma known_type_supported rule :
  known_type rule = true ↔ supported rule_types (get rule "type").
Proof.
  unfold known_type, supported, rule_types.
  destruct (get rule "type") as [[| | |s]| |]; simpl; try done.
  rewrite orb_false_r, !orb_true_iff, !String.eqb_eq, !elem_of_cons, elem_of_nil.
  tauto.
Qed.

Lemma known_type_annotated rule n what : known_type (annotated rule n what) = known_type rule.
Proof.
  unfold known_type, annotated, get, get_default. by rewrite lookup_insert_ne.
Qed.

(** What [record_rule] adds to the two lists. *)
Lemma record_rule_passed rule n what acc x :
  x ∈ (record_rule rule n what acc).1 ↔ x ∈ acc.1 ∨ (x = rule ∧ n = 0).
Proof.
  unfold record_rule. destruct n as [|n]; simpl.
  - rewrite elem_of_app, list_elem_of_singleton. tauto.
  - split; [tauto|]. intros [?|[_ ?]]; done.
Qed.

Lemma record_rule_failed rule n what acc y :
  y ∈ (record_rule rule n what acc).2 ↔
  y ∈ acc.2 ∨ (y = annotated rule n what ∧ n ≠ 0).
Proof.
  unfold record_rule. destruct n as [|n]; simpl.
  - split; [tauto|]. intros [?|[_ ?]]; done.
  - rewrite elem_of_app, list_elem_of_singleton. unfold annotated.
    split; (intros [?|?]; [by left|right]); [done|tauto].
Qed.

Lemma record_rule_length rule n what acc :
  length (record_rule rule n what acc).1 + length (record_rule rule n what acc).2 =
  S (length acc.1 + length acc.2).
Proof.
  unfold record_rule. destruct n as [|n]; simpl; rewrite length_app; simpl; lia.
Qed.

(** The state of the two lists after the loop: [passed] holds the rules
    that count zero, [failed] the annotated rules that count more, and
    every rule of a known type is in one of them. *)
Lemma validate_all_spec df rules acc acc' :
  validate_all df rules acc = Ok acc' →
  (∀ x, x ∈ acc'.1 ↔
        x ∈ acc.1 ∨ (x ∈ rules ∧ ∃ what, rule_count df x = Ok (Some (0, what)))) ∧
  (∀ y, y ∈ acc'.2 ↔
        y ∈ acc.2 ∨ ∃ x n what, x ∈ rules ∧ rule_count df x = Ok (Some (n, what)) ∧
                                 y = annotated x n what ∧ n ≠ 0) ∧
  length acc'.1 + length acc'.2 =
    length acc.1 + length acc.2 + length (filter (λ x, known_type x = true) rules).
Proof.
  revert acc. induction rules as [|rule rules IH]; intros acc; simpl.
  - intros [= <-]. split; [|split]; [| |lia].
    + intros x. split; [by left|]. by intros [?|[[]%elem_of_nil _]].
    + intros y. split; [by left|]. by intros [?|(? & ? & ? & []%elem_of_nil & _)].
  - unfold mbind, result_mbind, result_bind. rewrite validate_rule_count.
    destruct (rule_count df rule) as [[[n what]|]|e] eqn:Hc; [| |done];
      intros Hrest; destruct (IH _ Hrest) as (Hp & Hf & Hlen); clear IH.
    + assert (known_type rule = true) as Hk.
      { destruct (known_type rule) eqn:Hk; [done|].
        by rewrite (rule_count_unknown df rule Hk) in Hc. }
      rewrite filter_cons, decide_True by done.
      rewrite record_rule_length in Hlen. split; [|split]; [| |simpl; lia].
      * intros x. rewrite Hp, record_rule_passed, elem_of_cons. split.
        -- intros [[?|[-> ->]]|[? ?]]; [by left|right..].
           ++ split; [by left|]. by exists what.
           ++ split; [by right|done].
        -- intros [?|[[->|?] [what' Hx]]]; [by left;left| |right; eauto].
           left. right. rewrite Hc in Hx. by simplify_eq.
      * intros y. rewrite Hf, record_rule_failed. split.
        -- intros [[?|[-> ?]]|(x & m & w & ? & ? & ?)]; [by left|right..].
           ++ exists rule, n, what. split; [left|]; done.
           ++ exists x, m, w. split; [by right|done].
        -- intros [?|(x & m & w & [->|?]%elem_of_cons & Hx & ? & ?)]; [by left;left| |].
           ++ left. right. rewrite Hc in Hx. by simplify_eq.
           ++ right. by exists x, m, w.
    + assert (known_type rule = false) as Hk.
      { destruct (known_type rule) eqn:Hk; [|done].
        by destruct (rule_count_known df rule None Hk Hc). }
      rewrite filter_cons, decide_False by congruence.
      split; [|split]; [| |done].
      * intros x. rewrite Hp, elem_of_cons. split.
        -- intros [?|[? ?]]; [by left|right]; eauto.
        -- intros [?|[[->|?] [what' Hx]]]; [by left| |right; eauto].
           rewrite Hc in Hx. by simplify_eq.
      * intros y. rewrite Hf. split.
        -- intros [?|(x & m & w & ? & ? & ?)]; [by left|right].
           exists x, m, w. split; [by right|done].
        -- intros [?|(x & m & w & [->|?]%elem_of_cons & Hx & ? & ?)]; [by left| |].
           ++ rewrite Hc in Hx. by simplify_eq.
           ++ right. by exists x, m, w.
Qed.

Lemma filter_length_lt {A} (P : A → Prop) `{∀ x, Decision (P x)} (l : list A) x :
  x ∈ l → ¬ P x → length (filter P l) < length l.
Proof.
  induction l as [|y l IH]; [by intros ?%elem_of_nil|].
  rewrite elem_of_cons, filter_cons. intros [<-|Hin] Hno.
  - rewrite decide_False by done. simpl. pose proof (length_filter P l). lia.
  - specialize (IH Hin Hno). destruct (decide (P y)); simpl; lia.
Qed.

Lemma pass_rate_bounds (a b : nat) :
  a ≤ b → b ≠ 0 →
  (0 <= inject_Z (Z.of_nat a) / inject_Z (Z.of_nat b) ∧
   inject_Z (Z.of_nat a) / inject_Z (Z.of_nat b) <= 1)%Q.
Proof.
  intros Hab Hb.
  assert (0 < inject_Z (Z.of_nat b))%Q as Hpos.
  { change 0%Q with (inject_Z 0). rewrite <- Zlt_Qlt. lia. }
  split.
  - apply Qle_shift_div_l; [done|]. rewrite Qmult_0_l.
    change 0%Q with (inject_Z 0). rewrite <- Zle_Qle. lia.
  - apply Qle_shift_div_r; [done|]. rewrite Qmult_1_l. rewrite <- Zle_Qle. lia.
Qed.

(** C2: the pass rate of a report is the number of passed rules over the
    number of rules, it lies between 0 and 1, and for the empty list of
    rules the report is returned with a pass rate of exactly 0. *)
Theorem pass_rate_is_fraction df rules r :
  validate_data_quality df rules = Ok r →
  total_rules r = length rules ∧
  (rules ≠ [] →
     pass_rate r =
     (inject_Z (Z.of_nat (length (passed r))) / inject_Z (Z.of_nat (total_rules r)))%Q) ∧
  (0 <= pass_rate r)%Q ∧ (pass_rate r <= 1)%Q ∧
  validate_data_quality df [] =
    Ok {| passed := []; failed := []; total_rules := 0; pass_rate := 0 |}.
Proof.
  unfold validate_data_quality, mbind, result_mbind, result_bind.
  destruct (validate_all df rules ([], [])) as [acc|e] eqn:Hall; [|done].
  intros [= <-]. simpl. destruct (validate_all_spec _ _ _ _ Hall) as (_ & _ & Hlen).
  simpl in Hlen. pose proof (length_filter (λ x, known_type x = true) rules) as Hle.
  split; [done|]. split; [by destruct rules|].
  destruct rules as [|rule rules]; [done|].
  destruct (pass_rate_bounds (length acc.1) (length (rule :: rules))) as [H0 H1];
    [lia|done|]. by repeat split.
Qed.

(** C4: a rule whose type is none of [not_null], [unique], [range] is
    skipped without an error; it is in neither list of the report, which
    still counts it in [total_rules], so that the two lists together are
    shorter than [total_rules]. *)
Theorem unknown_rule_is_skipped df (rule : descriptor) :
  ¬ supported rule_types (get rule "type") →
  (∀ acc, validate_rule df rule acc = Ok acc) ∧
  (∀ rules r, rule ∈ rules → validate_data_quality df rules = Ok r →
     (rule ∉ passed r) ∧ (rule ∉ failed r) ∧
     (∀ n what, annotated rule n what ∉ failed r) ∧
     total_rules r = length rules ∧
     length (passed r) + length (failed r) < total_rules r).
Proof.
  intros Hno. assert (known_type rule = false) as Hk.
  { destruct (known_type rule) eqn:Hk; [|done]. by apply known_type_supported in Hk. }
  split.
  - intros acc. by rewrite validate_rule_count, rule_count_unknown.
  - intros rules r Hin. unfold validate_data_quality, mbind, result_mbind, result_bind.
    destruct (validate_all df rules ([], [])) as [acc|e] eqn:Hall; [|done].
    intros [= <-]. simpl. destruct (validate_all_spec _ _ _ _ Hall) as (Hp & Hf & Hlen).
    simpl in Hlen.
    assert (∀ x, x ∈ acc.2 → known_type x = true) as Hknown.
    { intros y [[]%elem_of_nil|(x & n & what & _ & Hc & -> & _)]%Hf.
      rewrite known_type_annotated. destruct (known_type x) eqn:Hx; [done|].
      by rewrite (rule_count_unknown df x Hx) in Hc. }
    split; [|split; [|split; [|split]]]; [| | |done|].
    + intros [[]%elem_of_nil|[_ [what Hc]]]%Hp.
      by rewrite (rule_count_unknown df rule Hk) in Hc.
    + intros Hin'%Hknown. congruence.
    + intros n what Hin'%Hknown. rewrite known_type_annotated in Hin'. congruence.
    + rewrite Hlen. apply (filter_length_lt _ _ rule); [done|congruence].
Qed.
Lemma validate_rule_verdict df rule n what acc :
  rule_count df rule = Ok (Some (n, what)) →
  validate_rule df rule acc =
  Ok (if n =? 0 then (acc.1 ++ [rule], acc.2)
      else (acc.1, acc.2 ++ [annotated rule n what])).
Proof. intros Hc. by rewrite validate_rule_count, Hc. Qed.

Lemma report_verdict df rule n what rules r :
  rule_count df rule = Ok (Some (n, what)) →
  rule ∈ rules → validate_data_quality df rules = Ok r →
  (rule ∈ passed r ↔ n = 0) ∧ (n ≠ 0 → annotated rule n what ∈ failed r).
Proof.
  intros Hc Hin. unfold validate_data_quality, mbind, result_mbind, result_bind.
  destruct (validate_all df rules ([], [])) as [acc|e] eqn:Hall; [|done].
  intros [= <-]. simpl. destruct (validate_all_spec _ _ _ _ Hall) as (Hp & Hf & _).
  split; [split|].
  - intros [[]%elem_of_nil|[_ [what' Hc']]]%Hp. rewrite Hc in Hc'. by simplify_eq.
  - intros ->. apply Hp. right. eauto.
  - intros Hn. apply Hf. right. by exists rule, n, what.
Qed.

Lemma getitem_one c df s :
  pd.lookup_label c df = [s] → pd.getitem (Scalar (VStr c)) df = Ok (OneSeries s).
Proof. intros Hs. simpl. by rewrite Hs. Qed.

(** C5: for a [unique] rule on a column of the frame, the count is the
    number of entries beyond the first occurrence of each value, and the
    rule passes exactly when that count is zero; on the values
    [1,1,2,3,3,3] the count is 3 and the rule fails.  The values of the
    entries are told apart as Python tells them apart ([canonical]): [True]
    is a repeat of [1], and [False] of [0].  On a column where no two
    different entries are equal for Python, the count is that of the
    entries as they stand. *)
Theorem unique_counts_repeats df (rule : descriptor) c s :
  get rule "type" = Scalar (VStr "unique") →
  get rule "column" = Scalar (VStr c) →
  pd.lookup_label c df = [s] →
  let n := beyond_first_occurrence (canonical <$> s) in
  duplicate_count df (get rule "column") = Ok n ∧
  (∀ acc, validate_rule df rule acc =
          Ok (if n =? 0 then (acc.1 ++ [rule], acc.2)
              else (acc.1, acc.2 ++ [annotated rule n " duplicates found"]))) ∧
  (∀ rules r, rule ∈ rules → validate_data_quality df rules = Ok r →
     (rule ∈ passed r ↔ n = 0) ∧
     (n ≠ 0 → annotated rule n " duplicates found" ∈ failed r)) ∧
  ((∀ x y, x ∈ s → y ∈ s → canonical x = canonical y → x = y) →
   n = beyond_first_occurrence s) ∧
  beyond_first_occurrence (VInt <$> [1; 1; 2; 3; 3; 3]%Z) = 3 ∧
  validate_data_quality repeats [rule_on "unique" "k"] =
    Ok {| passed := [];
          failed := [<["error" := Scalar (VStr "3 duplicates found")]>
                       (rule_on "unique" "k")];
          total_rules := 1;
          pass_rate := 0 |}.
Proof.
  intros Htype Hcol Hs n.
  assert (duplicate_count df (get rule "column") = Ok n) as Hn.
  { unfold duplicate_count. rewrite Hcol, (getitem_one _ _ _ Hs). simpl.
    unfold pd.duplicated. by rewrite duplicated_beyond_first. }
  assert (rule_count df rule = Ok (Some (n, " duplicates found"))) as Hc.
  { unfold rule_count. rewrite Htype. simpl. by rewrite Hn. }
  split; [done|]. split; [intros acc; by apply validate_rule_verdict|].
  split; [intros rules r; by apply report_verdict|].
  split; [|split; reflexivity].
  intros Hinj. unfold n. rewrite !beyond_first_count, length_fmap.
  by rewrite remove_dups_fmap_length.
Qed.

(** C6: for a [range] rule with integer bounds on an integer column, the
    count is the number of rows strictly below [min] or strictly above
    [max], and the rule passes exactly when that count is zero; with
    bounds 0 and 10 on [-1,0,5,10,11] two rows violate, and the rule fails
    with a message that cites 2. *)
Theorem range_counts_violations df (rule : descriptor) c s lo hi :
  get rule "type" = Scalar (VStr "range") →
  get rule "column" = Scalar (VStr c) →
  get rule "min" = Scalar (VInt lo) →
  get rule "max" = Scalar (VInt hi) →
  pd.lookup_label c df = [s] → pd.numeric s = true →
  let n := violations lo hi s in
  out_of_range df (get rule "column") (get rule "min") (get rule "max") = Ok n ∧
  (∀ acc, validate_rule df rule acc =
          Ok (if n =? 0 then (acc.1 ++ [rule], acc.2)
              else (acc.1, acc.2 ++ [annotated rule n " values out of range"]))) ∧
  (∀ rules r, rule ∈ rules → validate_data_quality df rules = Ok r →
     (rule ∈ passed r ↔ n = 0) ∧
     (n ≠ 0 → annotated rule n " values out of range" ∈ failed r)) ∧
  violations 0 10 (VInt <$> [-1; 0; 5; 10; 11]%Z) = 2 ∧
  validate_data_quality readings [range_rule "x" 0 10] =
    Ok {| passed := [];
          failed := [<["error" := Scalar (VStr "2 values out of range")]>
                       (range_rule "x" 0 10)];
          total_rules := 1;
          pass_rate := 0 |}.
Proof.
  intros Htype Hcol Hmin Hmax Hs Hnum n.
  assert (out_of_range df (get rule "column") (get rule "min") (get rule "max") = Ok n)
    as Hn.
  { unfold out_of_range. rewrite Hcol, Hmin, Hmax, (getitem_one _ _ _ Hs). simpl.
    rewrite Hnum. simpl. by rewrite sum_or_mask. }
  assert (rule_count df rule = Ok (Some (n, " values out of range"))) as Hc.
  { unfold rule_count. rewrite Htype. simpl. by rewrite Hn. }
  split; [done|]. split; [intros acc; by apply validate_rule_verdict|].
  split; [intros rules r; by apply report_verdict|].
  split; reflexivity.
Qed.

End Rules.

(** ** The orchestrator *)

Section Orchestrator.
Context `{Engine}.

(** C7: the statistics of a completed run give, as rows per second, the
    output rows over the duration when the duration is positive, and
    exactly 0 when the duration is 0. *)
Theorem throughput_is_rows_over_duration
    self source_key destination_key ts fmt w st w' :
  run_etl_pipeline self source_key destination_key ts fmt w = (Ok st, w') →
  ((0 < duration_seconds st)%Q →
     rows_per_second st =
     (inject_Z (Z.of_nat (output_rows st)) / duration_seconds st)%Q) ∧
  ((duration_seconds st == 0)%Q → rows_per_second st = 0%Q).
Proof.
  unfold run_etl_pipeline, mbind, M_bind, mret, M_ret.
  destruct (now w) as [[t0|?] w0]; [|done].
  destruct (extract_from_s3 _ _ w0) as [[df|?] w1]; [|done].
  destruct (len_of df w1) as [[n_in|?] w2]; [|done].
  destruct (transform df ts w2) as [[df'|?] w3]; [|done].
  destruct (len_of df' w3) as [[n_out|?] w4]; [|done].
  destruct (load_to_s3 _ _ _ _ w4) as [[[]|?] w5]; [|done].
  destruct (now w5) as [[t1|?] w6]; [|done].
  intros [= <- <-]. simpl.
  destruct (Qlt_le_dec 0 (total_seconds (t1 - t0))) as [Hpos|Hle].
  - split; [done|]. intros Hz. rewrite Hz in Hpos. by apply Qlt_irrefl in Hpos.
  - split; [|done]. intros Hpos. by apply Qle_not_lt in Hle.
Qed.

End Orchestrator.

(** ** The value of a transformation *)

Section TransformValue.
Context `{Engine}.

Lemma call_effect f cur w T :
  frames w !! cur = Some T →
  match f T with
  | Ok T' => ∃ r w', call f cur w = (Ok r, w') ∧ frames w' !! r = Some T'
  | Raise e => call f cur w = (Raise e, w)
  end.
Proof.
  intros HT. rewrite (call_run _ _ _ _ HT). destruct (f T) as [T'|e]; [|done].
  eexists _, _. split; [done|]. simpl. by rewrite list_lookup_middle.
Qed.

Lemma update_effect f cur w T :
  frames w !! cur = Some T →
  match f T with
  | Ok T' => ∃ r w', update f cur w = (Ok r, w') ∧ frames w' !! r = Some T'
  | Raise e => update f cur w = (Raise e, w)
  end.
Proof.
  intros HT. rewrite (update_run _ _ _ _ HT). destruct (f T) as [T'|e]; [|done].
  eexists _, _. split; [done|]. simpl. apply list_lookup_insert_eq.
  by eapply lookup_lt_Some.
Qed.

Lemma apply_transform_effect t cur w T :
  frames w !! cur = Some T →
  match effect t T with
  | Ok T' => ∃ r w', apply_transform t cur w = (Ok r, w') ∧ frames w' !! r = Some T'
  | Raise e => apply_transform t cur w = (Raise e, w)
  end.
Proof.
  intros HT. unfold effect, apply_transform.
  repeat match goal with
         | |- context [if is_str ?v ?name then _ else _] =>
             destruct (is_str v name);
             [by (apply call_effect || apply update_effect)|]
         end.
  by eexists _, _.
Qed.

Lemma apply_all_effects ts cur w T :
  frames w !! cur = Some T →
  match effects ts T with
  | Ok T' => ∃ r w', apply_all ts cur w = (Ok r, w') ∧ frames w' !! r = Some T'
  | Raise e => ∃ w', apply_all ts cur w = (Raise e, w')
  end.
Proof.
  revert cur w T. induction ts as [|t ts IH]; intros cur w T HT; simpl.
  - by eexists _, _.
  - pose proof (apply_transform_effect t cur w T HT) as Ht.
    unfold mbind at 1, result_mbind, result_bind. unfold mbind, M_bind.
    destruct (effect t T) as [T1|e].
    + destruct Ht as (r1 & w1 & -> & H1). by apply IH.
    + rewrite Ht. by eexists.
Qed.

Lemma transform_effects w df T ts :
  frames w !! df = Some T →
  match effects (default [] ts) T with
  | Ok T' => ∃ r w', transform df ts w = (Ok r, w') ∧ frames w' !! r = Some T'
  | Raise e => ∃ w', transform df ts w = (Raise e, w')
  end.
Proof.
  intros HT. pose proof (apply_all_effects (default [] ts) (length (frames w))
    (set_frames (λ fs, fs ++ [T]) w) T) as Hall.
  assert (transform df ts w =
          apply_all (default [] ts) (length (frames w)) (set_frames (λ fs, fs ++ [T]) w))
    as ->.
  { rewrite transform_unfold. unfold mbind, M_bind, copy. by rewrite (call_run _ _ _ _ HT). }
  apply Hall. simpl. by rewrite list_lookup_middle.
Qed.

(** The converse reading: what [transform] returned is what [effects]
    computes. *)
Lemma transform_ok_effects w df T ts r w' :
  frames w !! df = Some T → transform df ts w = (Ok r, w') →
  ∃ T', effects (default [] ts) T = Ok T' ∧ frames w' !! r = Some T'.
Proof.
  intros HT Hrun. pose proof (transform_effects w df T ts HT) as Hspec.
  destruct (effects (default [] ts) T) as [T'|e].
  - destruct Hspec as (r0 & w0 & Hrun0 & HT'). rewrite Hrun in Hrun0.
    injection Hrun0 as <- <-. by exists T'.
  - destruct Hspec as (w0 & Hrun0). by rewrite Hrun in Hrun0.
Qed.

Lemma transform_raise_effects w df T ts e w' :
  frames w !! df = Some T → transform df ts w = (Raise e, w') →
  effects (default [] ts) T = Raise e.
Proof.
  intros HT Hrun. pose proof (transform_effects w df T ts HT) as Hspec.
  destruct (effects (default [] ts) T) as [T'|e0].
  - destruct Hspec as (r0 & w0 & Hrun0 & _). by rewrite Hrun in Hrun0.
  - destruct Hspec as (w0 & Hrun0). rewrite Hrun in Hrun0. by injection Hrun0 as <- _.
Qed.

Lemma transform_needs_frame df ts w r w' :
  transform df ts w = (Ok r, w') → is_Some (frames w !! df).
Proof.
  unfold transform, mbind, M_bind, copy, call, load, mbind, M_bind.
  destruct (frames w !! df); [by eauto|done].
Qed.

(** X1: the frame that [transform] returns is what the operations make of
    the input, applied in list order; [transform] raises exactly when one
    of them raises, with its error, and the later ones are not applied. *)
Theorem transform_folds_effects w df T ts :
  frames w !! df = Some T →
  match effects (default [] ts) T with
  | Ok T' => ∃ r w', transform df ts w = (Ok r, w') ∧ frames w' !! r = Some T'
  | Raise e => ∃ w', transform df ts w = (Raise e, w')
  end.
Proof. apply transform_effects. Qed.

(** X2: the reference that [transform] returns is new: it points to none
    of the frames that existed before the call, the input least of all. *)
Theorem transform_returns_new_frame df ts w r w' :
  transform df ts w = (Ok r, w') →
  df < length (frames w) ∧ length (frames w) ≤ r ∧ r < length (frames w').
Proof.
  intros Hrun. destruct (transform_needs_frame _ _ _ _ _ Hrun) as [T HT].
  split; [by eapply lookup_lt_Some|]. split.
  - revert Hrun. rewrite transform_unfold. unfold mbind, M_bind.
    destruct (copy df w) as [[r0|e] w0] eqn:Hcopy; [|done].
    destruct (call_keeps (length (frames w)) _ _ _ _ _ (le_n _) Hcopy) as [Hk Hr].
    intros Hall.
    by destruct (apply_all_keeps (length (frames w)) _ _ _ _ _ (Hr _ eq_refl) (proj2 Hk)
                   Hall) as [_ Hr'%(λ f, f r eq_refl)].
  - destruct (transform_ok_effects _ _ _ _ _ _ HT Hrun) as (T' & _ & HT').
    by eapply lookup_lt_Some.
Qed.
End TransformValue.
Section Select.
Context {A : Type}.
Implicit Types (l : list A) (mask : list bool).

Lemma select_sublist mask l : pd.select mask l `sublist_of` l.
Proof.
  revert mask. induction l as [|x l IH]; intros [|b mask]; simpl; try done.
  - apply sublist_nil_l.
  - destruct b; [by apply sublist_skip|by apply sublist_cons].
Qed.

Lemma select_length mask l : length (pd.select mask l) ≤ length l.
Proof. apply sublist_length, select_sublist. Qed.

Lemma elem_of_select (f : nat → bool) k n l x :
  x ∈ pd.select (f <$> seq k n) l → ∃ i, l !! i = Some x ∧ f (k + i) = true.
Proof.
  revert k n. induction l as [|y l IH]; intros k [|n]; simpl;
    try (by intros ?%elem_of_nil).
  destruct (f k) eqn:Hk.
  - intros [->|Hin]%elem_of_cons.
    + exists 0. by rewrite Nat.add_0_r.
    + destruct (IH _ _ Hin) as (i & Hi & Hf). exists (S i).
      by rewrite Nat.add_succ_r.
  - intros Hin. destruct (IH _ _ Hin) as (i & Hi & Hf). exists (S i).
    by rewrite Nat.add_succ_r.
Qed.

Lemma select_all (f : nat → bool) k n l :
  length l ≤ n → (∀ i, i < length l → f (k + i) = true) →
  pd.select (f <$> seq k n) l = l.
Proof.
  revert k n. induction l as [|y l IH]; intros k [|n] Hn Hf; simpl in *; try done; [lia|].
  assert (f k = true) as -> by (rewrite <- (Nat.add_0_r k); apply Hf; lia).
  f_equal. apply IH; [lia|].
  intros i Hi. rewrite Nat.add_succ_comm. apply Hf. lia.
Qed.
End Select.

(** *** The rows that a selection keeps *)

Section Records.
Implicit Types (T : DataFrame) (mask : list bool).

Lemma cells_rest T i : cells (rest T) i = cells T (S i).
Proof.
  unfold cells, rest. simpl. rewrite <- list_fmap_compose. apply list_fmap_ext.
  intros j [c s] _. simpl. by rewrite lookup_tail.
Qed.

Lemma records_cons z idx cols :
  records {| index := z :: idx; columns := cols |} =
  (z, cells {| index := z :: idx; columns := cols |} 0) ::
  records (rest {| index := z :: idx; columns := cols |}).
Proof.
  unfold records. simpl index. rewrite imap_cons. f_equal.
  apply imap_ext. intros i x _. simpl. by rewrite cells_rest.
Qed.

Lemma select_nil {A} mask : pd.select mask (@nil A) = [].
Proof. by destruct mask. Qed.

Lemma select_rows_keep mask z idx cols :
  let T := {| index := z :: idx; columns := cols |} in
  index (pd.select_rows (true :: mask) T) = z :: index (pd.select_rows mask (rest T)) ∧
  cells (pd.select_rows (true :: mask) T) 0 = cells T 0 ∧
  rest (pd.select_rows (true :: mask) T) = pd.select_rows mask (rest T).
Proof.
  intros T. split; [done|]. split.
  - unfold cells, pd.select_rows. simpl. rewrite <- list_fmap_compose.
    apply list_fmap_ext. intros i [c [|x s]] _; done.
  - unfold rest, pd.select_rows. simpl. f_equal. rewrite <- !list_fmap_compose.
    apply list_fmap_ext. intros i [c [|x s]] _; simpl; [|done].
    by rewrite select_nil.
Qed.

Lemma select_rows_skip mask z idx cols :
  let T := {| index := z :: idx; columns := cols |} in
  pd.select_rows (false :: mask) T = pd.select_rows mask (rest T).
Proof.
  intros T. unfold rest, pd.select_rows. simpl. f_equal. rewrite <- !list_fmap_compose.
  apply list_fmap_ext. intros i [c [|x s]] _; simpl; [|done].
  by rewrite select_nil.
Qed.

Lemma records_select_rows (P : Z * list (string * option value) → Prop)
    `{∀ r, Decision (P r)} T :
  records (pd.select_rows ((λ r, bool_decide (P r)) <$> records T) T) =
  filter P (records T).
Proof.
  destruct T as [idx cols]. revert cols. induction idx as [|z idx IH]; intros cols; [done|].
  rewrite records_cons, fmap_cons, filter_cons.
  specialize (IH (prod_map id tail <$> cols)).
  change {| index := idx; columns := prod_map id tail <$> cols |}
    with (rest {| index := z :: idx; columns := cols |}) in IH.
  set (T := {| index := z :: idx; columns := cols |}) in *.
  destruct (decide (P (z, cells T 0))) as [Hp|Hp].
  - rewrite bool_decide_eq_true_2 by done.
    destruct (select_rows_keep ((λ r, bool_decide (P r)) <$> records (rest T)) z idx cols)
      as (Hidx & Hcells & Hrest). fold T in Hidx, Hcells, Hrest.
    revert Hidx Hcells Hrest.
    generalize (pd.select_rows (true :: ((λ r, bool_decide (P r)) <$> records (rest T))) T).
    intros [idx' cols'] Hidx Hcells Hrest. simpl in Hidx. subst idx'.
    rewrite records_cons, Hcells, Hrest. by rewrite IH.
  - rewrite bool_decide_eq_false_2 by done.
    unfold T at 2. rewrite select_rows_skip. fold T. apply IH.
Qed.

Lemma cell_notna (Q : string → Prop) `{∀ c, Decision (Q c)}
    (cl : list (string * Series)) i :
  forallb (λ col : Series,
             match col !! i with
             | Some v => negb (pd.isnull v)
             | None => true
             end) (filter (λ p : string * Series, Q p.1) cl).*2 = true ↔
  Forall (λ cell : string * option value, Q cell.1 → cell.2 ≠ Some VNone)
    ((λ p : string * Series, (p.1, p.2 !! i)) <$> cl).
Proof.
  induction cl as [|[c s] cl IH]; [by split|].
  rewrite filter_cons, fmap_cons, Forall_cons. simpl.
  destruct (decide (Q c)) as [Hc|Hc].
  - rewrite fmap_cons. simpl. rewrite andb_true_iff, IH.
    assert (match s !! i with
            | Some v => negb (pd.isnull v)
            | None => true
            end = true ↔ (Q c → s !! i ≠ Some VNone)) as ->; [|done].
    destruct (s !! i) as [[]|]; simpl; split; try done.
    intros Hno. by destruct (Hno Hc).
  - rewrite IH. tauto.
Qed.

Lemma notna_mask_complete_on cs T :
  pd.notna_mask (filter (λ p : string * Series, p.1 ∈ cs) (columns T)).*2 (len T) =
  (λ r, bool_decide (complete_on cs r)) <$> records T.
Proof.
  unfold pd.notna_mask, records, len. rewrite fmap_imap, <- imap_seq_0.
  apply imap_ext. intros i z _. simpl.
  unfold pd.row_notna, complete_on, cells. simpl.
  destruct (forallb _ _) eqn:Hall; symmetry.
  - apply bool_decide_eq_true_2. by apply (cell_notna (λ c, c ∈ cs)).
  - apply bool_decide_eq_false_2. rewrite <- (cell_notna (λ c, c ∈ cs)). by rewrite Hall.
Qed.

Lemma notna_mask_complete T :
  pd.notna_mask (columns T).*2 (len T) = (λ r, bool_decide (complete r)) <$> records T.
Proof.
  unfold pd.notna_mask, records, len. rewrite fmap_imap, <- imap_seq_0.
  apply imap_ext. intros i z _. simpl.
  assert (columns T = filter (λ p : string * Series, True) (columns T)) as Hall.
  { induction (columns T) as [|p cl IH]; [done|]. rewrite filter_cons. simpl. by f_equal. }
  assert (complete (z, cells T i) ↔
          Forall (λ cell : string * option value, True → cell.2 ≠ Some VNone)
            ((λ p : string * Series, (p.1, p.2 !! i)) <$> columns T)) as Hiff.
  { unfold complete, cells. simpl. apply Forall_proper; [|done]. intros cell. tauto. }
  unfold pd.row_notna. rewrite Hall at 1.
  destruct (forallb _ _) eqn:Hrow; symmetry.
  - apply bool_decide_eq_true_2. by rewrite Hiff, <- (cell_notna (λ _, True)).
  - apply bool_decide_eq_false_2. rewrite Hiff, <- (cell_notna (λ _, True)). by rewrite Hrow.
Qed.

(** Dropping the rows with a null keeps exactly the rows without. *)
Lemma records_dropna T :
  records (pd.select_rows (pd.notna_mask (columns T).*2 (len T)) T) =
  filter complete (records T).
Proof. rewrite notna_mask_complete. apply records_select_rows. Qed.

Lemma records_dropna_subset cs T :
  records (pd.select_rows
             (pd.notna_mask (filter (λ p : string * Series, p.1 ∈ cs) (columns T)).*2 (len T))
             T) =
  filter (complete_on cs) (records T).
Proof. rewrite notna_mask_complete_on. apply records_select_rows. Qed.
End Records.

Section Operations.
Context `{Engine}.

Lemma transform_returns w df T ts T' :
  frames w !! df = Some T → effects ts T = Ok T' →
  ∃ r w', transform df (Some ts) w = (Ok r, w') ∧ frames w' !! r = Some T'.
Proof.
  intros HT Heff. pose proof (transform_effects w df T (Some ts) HT) as Hspec.
  simpl in Hspec. by rewrite Heff in Hspec.
Qed.

Lemma effect_kind t kind df :
  get t "operation" = Scalar (VStr kind) →
  effect t df =
  (let operation := Scalar (VStr kind) in
   if is_str operation "drop_nulls" then
     pd.dropna (get_default t "columns" (Scalar VNone)) df
   else if is_str operation "fill_nulls" then
     fillna (get_default t "value" (Scalar (VInt 0))) df
   else if is_str operation "rename" then
     pd.rename (get_default t "mapping" (Mapping ∅)) df
   else if is_str operation "filter" then query (get t "condition") df
   else if is_str operation "aggregate" then
     groupby_agg (get_default t "group_by" (Names []))
       (get_default t "aggregations" (Mapping ∅)) df
   else if is_str operation "add_column" then
     pd.setitem (get t "name") (get t "value") df
   else if is_str operation "convert_type" then
     convert_column (get t "column") (get t "dtype") df
   else Ok df).
Proof. intros Hop. unfold effect. by rewrite Hop. Qed.

(** *** drop_nulls *)

Lemma select_rows_labels mask df : labels (pd.select_rows mask df) = labels df.
Proof.
  unfold labels, pd.select_rows. simpl. rewrite <- list_fmap_compose.
  by apply list_fmap_ext.
Qed.

Lemma select_rows_len mask df : len (pd.select_rows mask df) ≤ len df.
Proof. unfold len, pd.select_rows. simpl. apply select_length. Qed.

(** Dropping by the columns [cols] leaves no null in any of them. *)
Lemma notna_mask_no_null cols n (s : Series) v :
  s ∈ cols → v ∈ pd.select (pd.notna_mask cols n) s → v ≠ VNone.
Proof.
  intros Hs Hv. apply elem_of_select in Hv as (i & Hi & Hrow). simpl in Hrow.
  unfold pd.row_notna in Hrow. rewrite forallb_forall in Hrow.
  specialize (Hrow s). rewrite <- list_elem_of_In in Hrow. specialize (Hrow Hs).
  rewrite Hi in Hrow. by intros ->.
Qed.

Lemma select_rows_clean df :
  no_nulls df → well_formed df →
  pd.select_rows (pd.notna_mask (columns df).*2 (len df)) df = df.
Proof.
  intros Hclean Hwf.
  assert (∀ i, i < len df → pd.row_notna (columns df).*2 (0 + i) = true) as Hrow.
  { intros i Hi. unfold pd.row_notna. apply forallb_forall. intros s Hs.
    apply list_elem_of_In, list_elem_of_fmap in Hs as ([c s'] & -> & Hin). simpl.
    destruct (s' !! i) as [v|] eqn:Hv; [|done].
    destruct v; try done. exfalso. eapply Hclean; [done| |done].
    by eapply list_elem_of_lookup_2. }
  unfold pd.select_rows, pd.notna_mask. destruct df as [idx cols]. simpl in *. f_equal.
  - apply select_all; [done|]. intros i Hi. by apply Hrow.
  - trans (id <$> cols); [|apply list_fmap_id]. apply Forall_fmap_ext_1.
    unfold well_formed in Hwf. simpl in Hwf. eapply Forall_impl; [exact Hwf|].
    intros [c s] Hlen. unfold prod_map, len in *. simpl in *. f_equal.
    apply select_all; [lia|]. intros i Hi. apply Hrow. lia.
Qed.

(** X3: [drop_nulls] without a subset never raises; the rows of the frame
    it returns are exactly the rows of the input that have no null, label
    and cells, in their order.  So the frame has no null cell, the labels
    of the input and no more rows than it, and is the input itself when
    that had no null. *)
Theorem drop_nulls_leaves_no_nulls (t : descriptor) w df T :
  get t "operation" = Scalar (VStr "drop_nulls") → t !! "columns" = None →
  frames w !! df = Some T →
  ∃ r w' T',
    transform df (Some [t]) w = (Ok r, w') ∧ frames w' !! r = Some T' ∧
    records T' = filter complete (records T) ∧
    no_nulls T' ∧ labels T' = labels T ∧
    index T' `sublist_of` index T ∧ len T' ≤ len T ∧
    (no_nulls T → well_formed T → T' = T).
Proof.
  intros Hop Hcols HT.
  set (T' := pd.select_rows (pd.notna_mask (columns T).*2 (len T)) T).
  destruct (transform_returns w df T [t] T' HT) as (r & w' & Hrun & HT').
  { simpl. rewrite (effect_kind _ _ _ Hop). simpl. unfold get_default. by rewrite Hcols. }
  exists r, w', T'. split; [done|]. split; [done|]. split; [apply records_dropna|].
  split; [|split; [|split; [|split]]].
  - intros c s' v Hin Hv. unfold T', pd.select_rows in Hin. simpl in Hin.
    apply list_elem_of_fmap in Hin as ([c0 s] & [= -> ->] & Hin). simpl in Hv.
    eapply notna_mask_no_null; [|done]. apply list_elem_of_fmap. by exists (c0, s).
  - apply select_rows_labels.
  - apply select_sublist.
  - apply select_rows_len.
  - apply select_rows_clean.
Qed.

(** X4: [drop_nulls] with a subset of existing columns never raises; the
    rows of the frame it returns are exactly the rows of the input that
    have no null under a label of the subset, label and cells, in their
    order.  So no null is left in the columns of the subset, and the
    labels are kept. *)
Theorem drop_nulls_subset_leaves_no_nulls (t : descriptor) cs w df T :
  get t "operation" = Scalar (VStr "drop_nulls") → t !! "columns" = Some (Names cs) →
  (∀ c, c ∈ cs → c ∈ labels T) →
  frames w !! df = Some T →
  ∃ r w' T',
    transform df (Some [t]) w = (Ok r, w') ∧ frames w' !! r = Some T' ∧
    records T' = filter (complete_on cs) (records T) ∧
    (∀ c s v, c ∈ cs → (c, s) ∈ columns T' → v ∈ s → v ≠ VNone) ∧
    labels T' = labels T ∧ index T' `sublist_of` index T ∧ len T' ≤ len T.
Proof.
  intros Hop Hcols Hall HT.
  set (cols := (filter (λ p : string * Series, p.1 ∈ cs) (columns T)).*2).
  set (T' := pd.select_rows (pd.notna_mask cols (len T)) T).
  destruct (transform_returns w df T [t] T' HT) as (r & w' & Hrun & HT').
  { simpl. rewrite (effect_kind _ _ _ Hop). simpl. unfold get_default. rewrite Hcols.
    simpl. unfold pd.dropna_subset.
    assert (forallb (pd.has_label T) cs = true) as ->; [|done].
    apply forallb_forall. intros c Hc%list_elem_of_In.
    unfold pd.has_label. by apply bool_decide_eq_true_2, Hall. }
  exists r, w', T'. split; [done|]. split; [done|].
  split; [apply records_dropna_subset|]. split; [|split; [|split]].
  - intros c s' v Hc Hin Hv. unfold T', pd.select_rows in Hin. simpl in Hin.
    apply list_elem_of_fmap in Hin as ([c0 s] & [= -> ->] & Hin). simpl in Hv.
    eapply notna_mask_no_null; [|done]. apply list_elem_of_fmap. exists (c0, s).
    split; [done|]. by apply list_elem_of_filter.
  - apply select_rows_labels.
  - apply select_sublist.
  - apply select_rows_len.
Qed.

(** *** add_column *)

Lemma lookup_label_fmap_other (f : string * Series → string * Series) c' cols :
  (∀ p, (f p).1 = c' ↔ p.1 = c') → (∀ p, p.1 = c' → f p = p) →
  (filter (λ p : string * Series, p.1 = c') (f <$> cols)).*2 =
  (filter (λ p : string * Series, p.1 = c') cols).*2.
Proof.
  intros Hiff Hid. induction cols as [|p cols IH]; [done|].
  rewrite fmap_cons, !filter_cons.
  destruct (decide (p.1 = c')) as [Hp|Hp].
  - rewrite decide_True by (by apply Hiff). rewrite !fmap_cons, IH. by rewrite Hid.
  - rewrite decide_False by (by rewrite Hiff). done.
Qed.

Lemma setitem_scalar_other c v df c' :
  c' ≠ c → pd.lookup_label c' (pd.setitem_scalar c v df) = pd.lookup_label c' df.
Proof.
  intros Hne. unfold pd.lookup_label, pd.setitem_scalar. simpl.
  destruct (pd.has_label df c).
  - apply lookup_label_fmap_other.
    + intros p. destruct (decide (p.1 = c)) as [->|]; [|done]. simpl. split; congruence.
    + intros p Hp. rewrite decide_False; [done|congruence].
  - rewrite filter_app, filter_cons, decide_False by (simpl; congruence).
    by rewrite filter_nil, app_nil_r.
Qed.

Lemma has_label_true df c : pd.has_label df c = true ↔ c ∈ labels df.
Proof. unfold pd.has_label. apply bool_decide_eq_true. Qed.

Lemma labels_pair df c s : (c, s) ∈ columns df → c ∈ labels df.
Proof. intros Hin. unfold labels. apply list_elem_of_fmap. by exists (c, s). Qed.

Lemma setitem_scalar_column c v df s :
  s ∈ pd.lookup_label c (pd.setitem_scalar c v df) → s = replicate (len df) v.
Proof.
  unfold pd.lookup_label, pd.setitem_scalar. simpl.
  intros ([c0 s0] & -> & [Hc Hin]%list_elem_of_filter)%list_elem_of_fmap.
  simpl in *. subst c0. destruct (pd.has_label df c) eqn:Hl.
  - apply list_elem_of_fmap in Hin as (p & Heq & _).
    destruct (decide (p.1 = c)); [by injection Heq|].
    destruct p; simpl in *; congruence.
  - apply elem_of_app in Hin as [Hin|Hin%list_elem_of_singleton]; [|by injection Hin].
    apply labels_pair, has_label_true in Hin. congruence.
Qed.

Lemma setitem_scalar_labels c v df :
  labels (pd.setitem_scalar c v df) =
  if pd.has_label df c then labels df else labels df ++ [c].
Proof.
  unfold labels, pd.setitem_scalar. simpl. destruct (pd.has_label df c).
  - rewrite <- list_fmap_compose. apply list_fmap_ext. intros i p _. simpl.
    by destruct (decide (p.1 = c)).
  - by rewrite fmap_app.
Qed.

Lemma setitem_scalar_has_label c v df : c ∈ labels (pd.setitem_scalar c v df).
Proof.
  rewrite setitem_scalar_labels. destruct (pd.has_label df c) eqn:Hl.
  - by apply has_label_true.
  - apply elem_of_app. right. by apply list_elem_of_singleton.
Qed.

Lemma setitem_scalar_twice c v df :
  pd.setitem_scalar c v (pd.setitem_scalar c v df) = pd.setitem_scalar c v df.
Proof.
  pose proof (setitem_scalar_has_label c v df) as Hl. apply has_label_true in Hl.
  pose proof (setitem_scalar_column c v df) as Hcol.
  assert (len (pd.setitem_scalar c v df) = len df) as Hlen by done.
  revert Hl Hcol Hlen. generalize (pd.setitem_scalar c v df). intros [idx cols] Hl Hcol Hlen.
  unfold pd.setitem_scalar. rewrite Hl, Hlen. simpl. f_equal.
  trans (id <$> cols); [|apply list_fmap_id]. apply list_fmap_ext. intros i p Hp. simpl.
  destruct (decide (p.1 = c)) as [Hc|]; [|done]. destruct p as [c0 s]. simpl in *. subst c0.
  f_equal. symmetry. apply Hcol.
  unfold pd.lookup_label. simpl. apply list_elem_of_fmap. exists (c, s).
  split; [done|]. apply list_elem_of_filter. split; [done|]. by eapply list_elem_of_lookup_2.
Qed.

(** X6: [add_column] with a string name and a scalar value never raises;
    every column under that name then holds the value on every row, the
    other columns are untouched, the name is appended only when it was
    no column yet, and applying the operation twice gives what applying
    it once gives. *)
Theorem add_column_overwrites_and_is_idempotent (t : descriptor) c v w df T :
  get t "operation" = Scalar (VStr "add_column") →
  t !! "name" = Some (Scalar (VStr c)) → t !! "value" = Some (Scalar v) →
  frames w !! df = Some T →
  ∃ T',
    (∃ r w', transform df (Some [t]) w = (Ok r, w') ∧ frames w' !! r = Some T') ∧
    (∃ r w', transform df (Some [t; t]) w = (Ok r, w') ∧ frames w' !! r = Some T') ∧
    index T' = index T ∧ (c ∈ labels T') ∧
    (∀ s, s ∈ pd.lookup_label c T' → s = replicate (len T) v) ∧
    (∀ c', c' ≠ c → pd.lookup_label c' T' = pd.lookup_label c' T) ∧
    labels T' = (if decide (c ∈ labels T) then labels T else labels T ++ [c]).
Proof.
  intros Hop Hc Hv HT.
  assert (∀ T0, effect t T0 = Ok (pd.setitem_scalar c v T0)) as Heff.
  { intros T0. rewrite (effect_kind _ _ _ Hop). simpl. unfold get, get_default.
    by rewrite Hc, Hv. }
  exists (pd.setitem_scalar c v T). split; [|split; [|split; [|split; [|split; [|split]]]]].
  - apply (transform_returns w df T); [done|]. simpl. by rewrite Heff.
  - apply (transform_returns w df T); [done|]. simpl. rewrite Heff. simpl. rewrite Heff. simpl.
    by rewrite setitem_scalar_twice.
  - done.
  - apply setitem_scalar_has_label.
  - apply setitem_scalar_column.
  - intros c' Hne. by apply setitem_scalar_other.
  - rewrite setitem_scalar_labels. unfold pd.has_label.
    by destruct (decide (c ∈ labels T));
      [rewrite bool_decide_eq_true_2|rewrite bool_decide_eq_false_2].
Qed.

(** *** rename *)

Lemma rename_back a b df :
  b ∉ labels df →
  pd.rename_columns {[b := a]} (pd.rename_columns {[a := b]} df) = df.
Proof.
  intros Hb. destruct df as [idx cols]. unfold pd.rename_columns, labels in *. simpl in *.
  f_equal. rewrite <- list_fmap_compose.
  trans (id <$> cols); [|apply list_fmap_id]. apply list_fmap_ext.
  intros i [c s] Hp. unfold prod_map. simpl. f_equal.
  assert (c ≠ b) as Hc.
  { intros ->. apply Hb. apply list_elem_of_fmap. exists (b, s). split; [done|].
    by eapply list_elem_of_lookup_2. }
  unfold pd.rename_label. destruct (decide (c = a)) as [->|Hne].
  - rewrite lookup_singleton_eq. simpl. by rewrite lookup_singleton_eq.
  - rewrite lookup_singleton_ne by done. simpl. by rewrite lookup_singleton_ne.
Qed.

(** X5: renaming [a] to [b] and then [b] to [a] gives back a frame equal
    to the input, provided [b] was not a column of it. *)
Theorem rename_there_and_back (t1 t2 : descriptor) a b w df T :
  get t1 "operation" = Scalar (VStr "rename") →
  t1 !! "mapping" = Some (Mapping {[a := b]}) →
  get t2 "operation" = Scalar (VStr "rename") →
  t2 !! "mapping" = Some (Mapping {[b := a]}) →
  b ∉ labels T → frames w !! df = Some T →
  ∃ r w', transform df (Some [t1; t2]) w = (Ok r, w') ∧ frames w' !! r = Some T.
Proof.
  intros Hop1 Hm1 Hop2 Hm2 Hb HT. apply (transform_returns w df T); [done|]. simpl.
  rewrite (effect_kind _ _ _ Hop1). simpl. unfold get_default. rewrite Hm1. simpl.
  rewrite (effect_kind _ _ _ Hop2). simpl. unfold get_default. rewrite Hm2. simpl.
  by rewrite rename_back.
Qed.

(** *** convert_type *)

Lemma replace_columns_labels c new cols : (pd.replace_columns c new cols).*1 = cols.*1.
Proof.
  revert new. induction cols as [|[c0 s] cols IH]; intros new; simpl; [done|].
  destruct (decide (c0 = c)) as [->|].
  - destruct new; simpl; by rewrite IH.
  - simpl. by rewrite IH.
Qed.

Lemma replace_columns_other c new cols c' :
  c' ≠ c →
  (filter (λ p : string * Series, p.1 = c') (pd.replace_columns c new cols)).*2 =
  (filter (λ p : string * Series, p.1 = c') cols).*2.
Proof.
  intros Hne. revert new. induction cols as [|[c0 s] cols IH]; intros new; simpl; [done|].
  destruct (decide (c0 = c)) as [->|Hc0].
  - destruct new as [|s' new]; rewrite !filter_cons; simpl;
      rewrite !decide_False by congruence; apply IH.
  - rewrite !filter_cons. simpl. destruct (decide (c0 = c')); simpl; by rewrite IH.
Qed.

Lemma replace_columns_same c new cols :
  length new = length (filter (λ p : string * Series, p.1 = c) cols) →
  (filter (λ p : string * Series, p.1 = c) (pd.replace_columns c new cols)).*2 = new.
Proof.
  revert new. induction cols as [|[c0 s] cols IH]; intros new; simpl.
  - by destruct new.
  - rewrite (filter_cons _ (c0, s)). simpl. destruct (decide (c0 = c)) as [->|Hc0].
    + destruct new as [|s' new]; [done|]. simpl. intros [= Hlen].
      rewrite filter_cons. simpl. rewrite decide_True by done. simpl. by rewrite IH.
    + intros Hlen. rewrite filter_cons. simpl. rewrite decide_False by done. by apply IH.
Qed.

(** X7: when [convert_type] returns, its target was a column of the
    input, the columns under that label hold what the cast returned, and
    labels, row labels and every other column are as they were. *)
Theorem convert_type_touches_one_label (t : descriptor) c w df T r w' :
  get t "operation" = Scalar (VStr "convert_type") →
  t !! "column" = Some (Scalar (VStr c)) →
  frames w !! df = Some T → transform df (Some [t]) w = (Ok r, w') →
  ∃ T' cols',
    frames w' !! r = Some T' ∧ (c ∈ labels T) ∧
    astype (get t "dtype") (pd.lookup_label c T) = Ok cols' ∧
    pd.lookup_label c T' = cols' ∧
    labels T' = labels T ∧ index T' = index T ∧
    (∀ c', c' ≠ c → pd.lookup_label c' T' = pd.lookup_label c' T).
Proof.
  intros Hop Hc HT Hrun.
  destruct (transform_ok_effects _ _ _ _ _ _ HT Hrun) as (T' & Heff & HT').
  simpl in Heff. rewrite (effect_kind _ _ _ Hop) in Heff. simpl in Heff.
  unfold get at 1, get_default in Heff. rewrite Hc in Heff. simpl in Heff.
  unfold mbind, result_mbind, result_bind in Heff.
  destruct (pd.lookup_label c T) as [|s0 cols0] eqn:Hcols; [done|].
  destruct (astype (get t "dtype") (s0 :: cols0)) as [cols'|e] eqn:Hast; [|done].
  simpl in Heff.
  destruct (length cols' =? S (length cols0)) eqn:Hlen; [|done].
  apply Nat.eqb_eq in Hlen. injection Heff as <-.
  eexists _, cols'. split; [done|]. split; [|split; [done|split; [|split; [|split]]]].
  - destruct (decide (c ∈ labels T)) as [|Hno]; [done|].
    by rewrite lookup_label_absent in Hcols.
  - unfold pd.lookup_label. simpl. apply replace_columns_same.
    rewrite Hlen. apply (f_equal length) in Hcols.
    unfold pd.lookup_label in Hcols. by rewrite length_fmap in Hcols.
  - unfold labels. simpl. apply replace_columns_labels.
  - done.
  - intros c' Hne. unfold pd.lookup_label. simpl. by apply replace_columns_other.
Qed.

End Operations.

(** ** Extraction and loading *)

Lemma substring_append p s i m :
  substring (String.length p + i) m (p +:+ s) = substring i m s.
Proof. induction p as [|a p IH]; [done|]. simpl. apply IH. Qed.

Lemma length_append p s : String.length (p +:+ s) = String.length p + String.length s.
Proof. induction p as [|a p IH]; [done|]. simpl. by rewrite IH. Qed.

(** A substring that reaches the end of a string ends as the string does. *)
Lemma substring_last key a i m :
  i + m = String.length key + 1 → 0 < m →
  ∃ rest, substring i m (key +:+ String a "") = rest +:+ String a "".
Proof.
  revert i m. induction key as [|c key IH]; intros i m Hlen Hm; simpl in *.
  - destruct i as [|i]; [|lia]. destruct m as [|[|m]]; [lia| |lia]. by exists "".
  - destruct i as [|i].
    + destruct m as [|m]; [lia|]. destruct (IH 0 m) as [rest Hrest]; [lia|lia|].
      exists (String c rest). simpl. by rewrite Hrest.
    + apply IH; lia.
Qed.

Lemma append_last_inj s1 s2 a b :
  s1 +:+ String a "" = s2 +:+ String b "" → a = b.
Proof.
  revert s2. induction s1 as [|c s1 IH]; intros [|d s2]; simpl; intros Heq.
  - by injection Heq.
  - injection Heq as _ Heq. by destruct s2.
  - injection Heq as _ Heq. by destruct s1.
  - injection Heq as _ Heq. by eapply IH.
Qed.

(** A key cannot end with a suffix whose last character is not its own. *)
Lemma endswith_last_differs key suffix a b :
  a ≠ b → endswith (key +:+ String a "") (suffix +:+ String b "") = false.
Proof.
  intros Hne. unfold endswith. rewrite !length_append. simpl.
  destruct (Nat.leb_spec (String.length suffix + 1) (String.length key + 1)); [|done].
  simpl. apply String.eqb_neq. intros Heq.
  destruct (substring_last key a
              (String.length key + 1 - (String.length suffix + 1))
              (String.length suffix + 1)) as [rest Hrest]; [lia|lia|].
  rewrite Hrest in Heq. by apply append_last_inj in Heq.
Qed.

Lemma endswith_append p s suffix :
  String.length suffix ≤ String.length s →
  endswith (p +:+ s) suffix = endswith s suffix.
Proof.
  intros Hle. unfold endswith. rewrite length_append.
  replace (String.length p + String.length s - String.length suffix)
    with (String.length p + (String.length s - String.length suffix)) by lia.
  rewrite substring_append.
  destruct (Nat.leb_spec (String.length suffix) (String.length s)); [|lia].
  destruct (Nat.leb_spec (String.length suffix) (String.length p + String.length s));
    [done|lia].
Qed.

Lemma append_assoc s1 s2 s3 : (s1 +:+ s2) +:+ s3 = s1 +:+ (s2 +:+ s3).
Proof.
  induction s1 as [|c s1 IH]; [done|].
  change (String c ((s1 +:+ s2) +:+ s3) = String c (s1 +:+ (s2 +:+ s3))).
  by rewrite IH.
Qed.

Lemma json_not_parquet p : endswith (p +:+ ".json") ".parquet" = false.
Proof.
  change (p +:+ ".json") with (p +:+ (".jso" +:+ "n")).
  change ".parquet" with (".parque" +:+ "t").
  rewrite <- (append_assoc p ".jso" "n"). by apply endswith_last_differs.
Qed.

Lemma get_object_run self key w : get_object self key w = (object_at self w key, w).
Proof.
  unfold get_object, object_at, s3_client, s3_get, mbind, M_bind, mret, M_ret, raise.
  destruct (String.eqb (cloud_provider self) "aws"); [|done].
  destruct (bucket_name self) as [b|]; [|done].
  destruct (s3 w !! b) as [objs|]; [|done]. by destruct (objs !! key).
Qed.

Lemma put_object_run self key body w :
  put_object self key body w =
  if String.eqb (cloud_provider self) "aws" then
    match bucket_name self with
    | Some b =>
        match s3 w !! b with
        | Some objs =>
            if accepts w b key body
            then (Ok (), set_s3 (λ m, <[b := <[key := body]> objs]> m) w)
            else (Raise ClientError, w)
        | None => (Raise ClientError, w)
        end
    | None => (Raise TypeError, w)
    end
  else (Raise AttributeError, w).
Proof.
  unfold put_object, s3_client, s3_put, mbind, M_bind, mret, M_ret, raise.
  by destruct (String.eqb (cloud_provider self) "aws").
Qed.

Section IO.
Context `{Engine}.

Lemma extract_run self key w :
  extract_from_s3 self key w =
  match object_at self w key with
  | Ok body =>
      match decode key body with
      | Ok T => (Ok (length (frames w)), set_frames (λ fs, fs ++ [T]) w)
      | Raise e => (Raise e, w)
      end
  | Raise e => (Raise e, w)
  end.
Proof.
  unfold extract_from_s3, mbind, M_bind. rewrite get_object_run.
  destruct (object_at self w key) as [body|e]; [|done].
  unfold decode, lift, raise, alloc.
  destruct (endswith key ".csv"); [by destruct (read_csv body)|].
  destruct (endswith key ".parquet"); [by destruct (read_parquet body)|].
  destruct (endswith key ".json"); [by destruct (read_json body)|done].
Qed.

Lemma load_to_s3_run self df key format w T :
  frames w !! df = Some T →
  load_to_s3 self df key format w =
  match encode format T with
  | Ok buffer => put_object self key buffer w
  | Raise e => (Raise e, w)
  end.
Proof.
  intros HT. unfold load_to_s3, encode, mbind, M_bind, load, lift, raise. rewrite HT.
  destruct (String.eqb format "parquet"); [by destruct (to_parquet T)|].
  destruct (String.eqb format "csv"); [by destruct (to_csv T)|].
  destruct (String.eqb format "json"); [by destruct (to_json T)|done].
Qed.

(** X8: [extract_from_s3] fetches the object before it looks at the
    extension: a key that is not in the bucket raises the client's error
    whatever its extension, and a key that is there but ends in none of
    [.csv], [.parquet], [.json] raises [ValueError]; neither allocates a
    frame. *)
Theorem extract_fetches_before_format_check self key w b objs :
  cloud_provider self = "aws" → bucket_name self = Some b → s3 w !! b = Some objs →
  (objs !! key = None → extract_from_s3 self key w = (Raise ClientError, w)) ∧
  (is_Some (objs !! key) →
   endswith key ".csv" = false → endswith key ".parquet" = false →
   endswith key ".json" = false →
   extract_from_s3 self key w = (Raise ValueError, w)).
Proof.
  intros Haws Hb Hobjs. rewrite extract_run. unfold object_at, decode.
  rewrite Haws, Hb, Hobjs. simpl. split.
  - by intros ->.
  - intros [body ->] -> -> ->. done.
Qed.

(** X9: a key that ends in [.csv], [.parquet] or [.json] is parsed by the
    parser of that format; on success the result is a new frame, and the
    bucket is as it was. *)
Theorem extract_decodes_by_extension self p body w b objs ext :
  cloud_provider self = "aws" → bucket_name self = Some b → s3 w !! b = Some objs →
  objs !! (p +:+ ext) = Some body →
  let decoded parse :=
    extract_from_s3 self (p +:+ ext) w =
    match parse body with
    | Ok T => (Ok (length (frames w)), set_frames (λ fs, fs ++ [T]) w)
    | Raise e => (Raise e, w)
    end in
  (ext = ".csv" → decoded read_csv) ∧
  (ext = ".parquet" → decoded read_parquet) ∧
  (ext = ".json" → decoded read_json).
Proof.
  intros Haws Hb Hobjs Hbody decoded. unfold decoded. rewrite extract_run.
  unfold object_at, decode. rewrite Haws, Hb, Hobjs, Hbody.
  change (String.eqb "aws" "aws") with true. cbv iota.
  split; [|split]; intros ->.
  - rewrite (endswith_append p ".csv" ".csv") by (simpl; lia).
    by change (endswith ".csv" ".csv") with true.
  - rewrite (endswith_append p ".parquet" ".csv") by (simpl; lia).
    rewrite (endswith_append p ".parquet" ".parquet") by (simpl; lia).
    change (endswith ".parquet" ".csv") with false.
    by change (endswith ".parquet" ".parquet") with true.
  - rewrite (endswith_append p ".json" ".csv") by (simpl; lia).
    rewrite (endswith_append p ".json" ".json") by (simpl; lia).
    change (endswith ".json" ".csv") with false.
    change (endswith ".json" ".json") with true.
    by rewrite json_not_parquet.
Qed.

(** X10: [load_to_s3] allocates no frame; when it raises (unknown format,
    failed serialization, no client, no bucket, a refused write) the bucket
    is unchanged,
    and when it returns the bucket differs only by the object under
    [key], which is the frame serialized in the format asked for. *)
Theorem load_to_s3_writes_one_object self df key format w T out w' :
  frames w !! df = Some T → load_to_s3 self df key format w = (out, w') →
  frames w' = frames w ∧ ticks w' = ticks w ∧
  match out with
  | Raise _ => s3 w' = s3 w
  | Ok _ =>
      ∃ b objs buffer,
        cloud_provider self = "aws" ∧ bucket_name self = Some b ∧
        s3 w !! b = Some objs ∧ encode format T = Ok buffer ∧
        s3 w' = <[b := <[key := buffer]> objs]> (s3 w)
  end.
Proof.
  intros HT. rewrite (load_to_s3_run _ _ _ _ _ _ HT).
  destruct (encode format T) as [buffer|e]; [|by intros [= <- <-]].
  rewrite put_object_run.
  destruct (String.eqb (cloud_provider self) "aws") eqn:Haws; [|by intros [= <- <-]].
  apply String.eqb_eq in Haws.
  destruct (bucket_name self) as [b|]; [|by intros [= <- <-]].
  destruct (s3 w !! b) as [objs|] eqn:Hobjs; [|by intros [= <- <-]].
  destruct (accepts w b key buffer); intros [= <- <-]; [|done].
  split; [done|]. split; [done|]. by exists b, objs, buffer.
Qed.

End IO.

(** ** The whole run *)

Lemma same_io_refl w : same_io w w.
Proof. done. Qed.

Lemma same_io_trans w1 w2 w3 : same_io w1 w2 → same_io w2 w3 → same_io w1 w3.
Proof. intros (? & ? & ? & ?) (? & ? & ? & ?). repeat split; congruence. Qed.

Lemma call_io f l w out w' : call f l w = (out, w') → same_io w w'.
Proof.
  step. destruct (frames w !! l) as [df|]; [|by intros [= <- <-]].
  by destruct (f df); intros [= <- <-].
Qed.

Lemma update_io f l w out w' : update f l w = (out, w') → same_io w w'.
Proof.
  step. destruct (frames w !! l) as [df|]; [|by intros [= <- <-]].
  by destruct (f df); intros [= <- <-].
Qed.

Section Run.
Context `{Engine}.

Lemma apply_transform_io t cur w out w' : apply_transform t cur w = (out, w') → same_io w w'.
Proof.
  unfold apply_transform.
  repeat match goal with
         | |- context [if is_str ?v ?name then _ else _] =>
             destruct (is_str v name); [by (apply call_io || apply update_io)|]
         end.
  by intros [= <- <-].
Qed.

Lemma apply_all_io ts cur w out w' : apply_all ts cur w = (out, w') → same_io w w'.
Proof.
  revert cur w. induction ts as [|t ts IH]; intros cur w; simpl; [by intros [= <- <-]|].
  unfold mbind, M_bind. destruct (apply_transform t cur w) as [[r|e] w1] eqn:Ht.
  - intros Hrest. eapply same_io_trans; [by eapply apply_transform_io|by eapply IH].
  - intros [= <- <-]. by eapply apply_transform_io.
Qed.

(** [transform] does no input or output. *)
Lemma transform_io df ts w out w' : transform df ts w = (out, w') → same_io w w'.
Proof.
  rewrite transform_unfold. unfold mbind, M_bind.
  destruct (copy df w) as [[r|e] w1] eqn:Hcopy.
  - intros Hrest. eapply same_io_trans; [by eapply call_io|by eapply apply_all_io].
  - intros [= <- <-]. by eapply call_io.
Qed.

Lemma len_of_run l w T : frames w !! l = Some T → len_of l w = (Ok (len T), w).
Proof. intros HT. unfold len_of, load, mbind, M_bind. by rewrite HT. Qed.

Lemma object_at_same_io self w w' key :
  s3 w' = s3 w → object_at self w' key = object_at self w key.
Proof. intros Hs3. unfold object_at. by rewrite Hs3. Qed.

Lemma load_to_s3_outcome self df key format w T out w' :
  frames w !! df = Some T → load_to_s3 self df key format w = (out, w') →
  frames w' = frames w ∧ ticks w' = ticks w ∧ clock w' = clock w ∧
  match out with
  | Raise _ => s3 w' = s3 w
  | Ok _ =>
      ∃ b objs buffer,
        cloud_provider self = "aws" ∧ bucket_name self = Some b ∧
        s3 w !! b = Some objs ∧ encode format T = Ok buffer ∧
        s3 w' = <[b := <[key := buffer]> objs]> (s3 w)
  end.
Proof.
  intros HT. rewrite (load_to_s3_run _ _ _ _ _ _ HT).
  destruct (encode format T) as [buffer|e]; [|by intros [= <- <-]].
  rewrite put_object_run.
  destruct (String.eqb (cloud_provider self) "aws") eqn:Haws; [|by intros [= <- <-]].
  apply String.eqb_eq in Haws.
  destruct (bucket_name self) as [b|]; [|by intros [= <- <-]].
  destruct (s3 w !! b) as [objs|] eqn:Hobjs; [|by intros [= <- <-]].
  destruct (accepts w b key buffer); intros [= <- <-]; [|done].
  split; [done|]. split; [done|]. split; [done|]. by exists b, objs, buffer.
Qed.

(** What a run that returned has done. *)
Lemma run_returned self source_key destination_key ts format w st w' :
  run_etl_pipeline self source_key destination_key ts format w = (Ok st, w') →
  ∃ b objs body T T' buffer,
    cloud_provider self = "aws" ∧ bucket_name self = Some b ∧
    s3 w !! b = Some objs ∧ objs !! source_key = Some body ∧
    decode source_key body = Ok T ∧ effects (default [] ts) T = Ok T' ∧
    encode format T' = Ok buffer ∧
    s3 w' = <[b := <[destination_key := buffer]> objs]> (s3 w) ∧
    input_rows st = len T ∧ output_rows st = len T' ∧
    source st = source_key ∧ destination st = destination_key ∧
    duration_seconds st = total_seconds (clock w (S (ticks w)) - clock w (ticks w)) ∧
    ticks w' = S (S (ticks w)).
Proof.
  unfold run_etl_pipeline. unfold mbind at 1, M_bind at 1.
  change (now w) with (Ok (clock w (ticks w)), tick w).
  unfold mbind at 1, M_bind at 1. rewrite extract_run.
  rewrite (object_at_same_io self w (tick w)) by done.
  destruct (object_at self w source_key) as [body|e] eqn:Hat; [|done].
  destruct (decode source_key body) as [T|e] eqn:Hdec; [|done].
  set (w1 := set_frames (λ fs, fs ++ [T]) (tick w)).
  assert (frames w1 !! length (frames (tick w)) = Some T) as HT.
  { simpl. by rewrite list_lookup_middle. }
  unfold mbind at 1, M_bind at 1. rewrite (len_of_run _ _ _ HT).
  unfold mbind at 1, M_bind at 1.
  destruct (transform (length (frames (tick w))) ts w1) as [[r|e] w2] eqn:Htr; [|done].
  destruct (transform_ok_effects _ _ _ _ _ _ HT Htr) as (T' & Heff & HT').
  destruct (transform_io _ _ _ _ _ Htr) as (Hs3 & Hclock & Hticks & _).
  unfold mbind at 1, M_bind at 1. rewrite (len_of_run _ _ _ HT').
  unfold mbind at 1, M_bind at 1.
  destruct (load_to_s3 self r destination_key format w2) as [[[]|e] w3] eqn:Hload; [|done].
  destruct (load_to_s3_outcome _ _ _ _ _ _ _ _ HT' Hload)
    as (Hfr & Htk & Hck & b & objs & buffer & Haws & Hb & Hobjs & Henc & Hs3').
  intros [= <- <-]. simpl.
  assert (s3 w2 = s3 w) as Hs3w by (by rewrite Hs3).
  rewrite Hs3w in Hobjs, Hs3'.
  exists b, objs, body, T, T', buffer.
  revert Hat. unfold object_at. rewrite Haws, Hb, Hobjs. simpl.
  destruct (objs !! source_key) as [body'|] eqn:Hsrc; [|done]. intros [= ->].
  repeat (split; [done|]). split; [|by rewrite Htk, Hticks].
  by rewrite Hck, Htk, Hclock, Hticks.
Qed.



(** A run that raised has written nothing. *)
Lemma run_raised self source_key destination_key ts format w e w' :
  run_etl_pipeline self source_key destination_key ts format w = (Raise e, w') →
  s3 w' = s3 w.
Proof.
  unfold run_etl_pipeline. unfold mbind at 1, M_bind at 1.
  change (now w) with (Ok (clock w (ticks w)), tick w).
  unfold mbind at 1, M_bind at 1. rewrite extract_run.
  destruct (object_at self (tick w) source_key) as [body|e0]; [|by intros [= _ <-]].
  destruct (decode source_key body) as [T|e0]; [|by intros [= _ <-]].
  set (w1 := set_frames (λ fs, fs ++ [T]) (tick w)).
  assert (frames w1 !! length (frames (tick w)) = Some T) as HT.
  { simpl. by rewrite list_lookup_middle. }
  unfold mbind at 1, M_bind at 1. rewrite (len_of_run _ _ _ HT).
  unfold mbind at 1, M_bind at 1.
  destruct (transform (length (frames (tick w))) ts w1) as [[r|e0] w2] eqn:Htr;
    destruct (transform_io _ _ _ _ _ Htr) as (Hs3 & _); [|by intros [= _ <-]].
  destruct (transform_ok_effects _ _ _ _ _ _ HT Htr) as (T' & _ & HT').
  unfold mbind at 1, M_bind at 1. rewrite (len_of_run _ _ _ HT').
  unfold mbind at 1, M_bind at 1.
  destruct (load_to_s3 self r destination_key format w2) as [[[]|e0] w3] eqn:Hload; [done|].
  destruct (load_to_s3_outcome _ _ _ _ _ _ _ _ HT' Hload) as (_ & _ & _ & Hs3').
  intros [= _ <-]. by rewrite Hs3'.
Qed.


Lemma effects_unsupported ts T :
  Forall (λ t, ¬ supported supported_operations (get t "operation")) ts →
  effects ts T = Ok T.
Proof.
  induction 1 as [|t ts Hno _ IH]; [done|]. simpl.
  assert (effect t T = Ok T) as ->; [|done].
  unfold effect.
  assert (∀ name, name ∈ supported_operations → is_str (get t "operation") name = false)
    as Hf.
  { intros name Hin. apply is_str_false. intros Heq. apply Hno. by rewrite Heq. }
  rewrite !Hf; [done|unfold supported_operations; set_solver..].
Qed.

(** X12: a run that returned has read the source object of the pipeline's
    bucket, parsed it by the extension of the source key, applied the
    operations in order, serialized the result in the output format and
    stored it under the destination key, changing nothing else in the
    bucket; the statistics give the rows of the parsed and of the stored
    frame, the two keys, and the time between the two readings of the
    clock. *)
Theorem run_etl_pipeline_end_to_end self source_key destination_key ts format w st w' :
  run_etl_pipeline self source_key destination_key ts format w = (Ok st, w') →
  ∃ b objs body T T' buffer,
    cloud_provider self = "aws" ∧ bucket_name self = Some b ∧
    s3 w !! b = Some objs ∧ objs !! source_key = Some body ∧
    decode source_key body = Ok T ∧ effects (default [] ts) T = Ok T' ∧
    encode format T' = Ok buffer ∧
    s3 w' = <[b := <[destination_key := buffer]> objs]> (s3 w) ∧
    input_rows st = len T ∧ output_rows st = len T' ∧
    source st = source_key ∧ destination st = destination_key ∧
    duration_seconds st = total_seconds (clock w (S (ticks w)) - clock w (ticks w)) ∧
    ticks w' = S (S (ticks w)).
Proof. apply run_returned. Qed.


(** X14: a run that raises, at whatever step, leaves the bucket as it
    was: no partial object is written. *)
Theorem run_failure_writes_nothing self source_key destination_key ts format w e w' :
  run_etl_pipeline self source_key destination_key ts format w = (Raise e, w') →
  s3 w' = s3 w.
Proof. apply run_raised. Qed.

(** X15: a run without operations (omitted, empty, or of unknown kinds
    only) reports as many output rows as input rows and stores the parsed
    source itself, serialized in the output format. *)
Theorem run_without_operations_copies self source_key destination_key ts format w st w' :
  run_etl_pipeline self source_key destination_key ts format w = (Ok st, w') →
  Forall (λ t, ¬ supported supported_operations (get t "operation")) (default [] ts) →
  output_rows st = input_rows st ∧
  ∃ b objs body T buffer,
    bucket_name self = Some b ∧ s3 w !! b = Some objs ∧
    objs !! source_key = Some body ∧ decode source_key body = Ok T ∧
    encode format T = Ok buffer ∧
    s3 w' = <[b := <[destination_key := buffer]> objs]> (s3 w).
Proof.
  intros (b & objs & body & T & T' & buffer & _ & Hb & Hobjs & Hsrc & Hdec & Heff &
          Henc & Hs3 & Hin & Hout & _)%run_returned Hno.
  rewrite (effects_unsupported _ T Hno) in Heff. injection Heff as <-.
  split; [congruence|]. by exists b, objs, body, T, buffer.
Qed.

(** X16: on a pipeline whose provider is not ['aws'] there is no S3
    client: extraction, loading of a frame that serializes, and the whole
    run raise [AttributeError] and leave frames and bucket alone. *)
Theorem pipeline_without_s3_client_cannot_run self :
  cloud_provider self ≠ "aws" →
  (∀ key w, extract_from_s3 self key w = (Raise AttributeError, w)) ∧
  (∀ df key format w T buffer,
     frames w !! df = Some T → encode format T = Ok buffer →
     load_to_s3 self df key format w = (Raise AttributeError, w)) ∧
  (∀ source_key destination_key ts format w,
     run_etl_pipeline self source_key destination_key ts format w =
     (Raise AttributeError, tick w)).
Proof.
  intros Hno%String.eqb_neq.
  assert (∀ key w, extract_from_s3 self key w = (Raise AttributeError, w)) as Hex.
  { intros key w. rewrite extract_run. unfold object_at. by rewrite Hno. }
  split; [done|]. split.
  - intros df key format w T buffer HT Henc.
    by rewrite (load_to_s3_run _ _ _ _ _ _ HT), Henc, put_object_run, Hno.
  - intros source_key destination_key ts format w.
    unfold run_etl_pipeline. unfold mbind at 1, M_bind at 1.
    change (now w) with (Ok (clock w (ticks w)), tick w).
    unfold mbind at 1, M_bind at 1. by rewrite Hex.
Qed.
End Run.

(** ** Reports *)

Section Reports.
Context `{Engine}.

Lemma validate_all_lists df rules acc acc' :
  validate_all df rules acc = Ok acc' →
  acc'.1 = acc.1 ++ filter (λ x, passes df x = true) rules ∧
  acc'.2 = acc.2 ++ omap (failure df) rules.
Proof.
  revert acc. induction rules as [|rule rules IH]; intros acc; simpl.
  - intros [= <-]. by rewrite !app_nil_r.
  - unfold mbind, result_mbind, result_bind. rewrite validate_rule_count.
    rewrite filter_cons.
    destruct (rule_count df rule) as [[[[|n] what]|]|e] eqn:Hc; [| | |done];
      assert (passes df rule = _) as -> by (unfold passes; by rewrite Hc);
      assert (failure df rule = _) as Hfail by (unfold failure; by rewrite Hc);
      intros [-> ->]%IH; simpl; rewrite Hfail.
    + by rewrite <- app_assoc.
    + by rewrite <- app_assoc.
    + done.
Qed.

Lemma validate_all_succeeds df rules acc :
  Forall (λ x, ∃ o, rule_count df x = Ok o) rules →
  ∃ acc', validate_all df rules acc = Ok acc'.
Proof.
  intros Hall. revert acc. induction Hall as [|rule rules [o Ho] _ IH]; intros acc; simpl.
  - by eexists.
  - unfold mbind, result_mbind, result_bind. rewrite validate_rule_count, Ho.
    destruct o as [[n what]|]; apply IH.
Qed.

Lemma validate_all_needs df rules acc acc' :
  validate_all df rules acc = Ok acc' →
  Forall (λ x, ∃ o, rule_count df x = Ok o) rules.
Proof.
  revert acc. induction rules as [|rule rules IH]; intros acc; simpl; [by constructor|].
  unfold mbind, result_mbind, result_bind. rewrite validate_rule_count.
  destruct (rule_count df rule) as [o|e] eqn:Ho; [|done].
  intros Hrest. constructor; [by eexists|]. destruct o as [[n what]|]; by eapply IH.
Qed.

Lemma report_lists df rules r :
  validate_data_quality df rules = Ok r →
  passed r = filter (λ x, passes df x = true) rules ∧
  failed r = omap (failure df) rules ∧
  total_rules r = length rules.
Proof.
  unfold validate_data_quality, mbind, result_mbind, result_bind.
  destruct (validate_all df rules ([], [])) as [acc|e] eqn:Hall; [|done].
  intros [= <-]. simpl. by destruct (validate_all_lists _ _ _ _ Hall) as [-> ->].
Qed.

(** X17: in a report, [passed] is exactly the rules that count zero and
    [failed] exactly the annotated rules that count more, both in the
    order of the rule list. *)
Theorem report_lists_follow_rule_order df rules r :
  validate_data_quality df rules = Ok r →
  passed r = filter (λ x, passes df x = true) rules ∧
  failed r = omap (failure df) rules ∧
  passed r `sublist_of` rules.
Proof.
  intros (Hp & Hf & _)%report_lists. split; [done|]. split; [done|].
  rewrite Hp. apply sublist_filter.
Qed.

(** X18: the order of the rules does not matter: if a list of rules
    validates, every rearrangement of it validates too, with the same
    rules passed and failed, the same total and the same pass rate. *)
Theorem validation_is_order_independent df rules rules' r :
  validate_data_quality df rules = Ok r → rules ≡ₚ rules' →
  ∃ r', validate_data_quality df rules' = Ok r' ∧
        passed r' ≡ₚ passed r ∧ failed r' ≡ₚ failed r ∧
        total_rules r' = total_rules r ∧ pass_rate r' = pass_rate r.
Proof.
  intros Hr Hperm.
  assert (∃ r', validate_data_quality df rules' = Ok r') as [r' Hr'].
  { revert Hr. unfold validate_data_quality, mbind, result_mbind, result_bind.
    destruct (validate_all df rules ([], [])) as [acc|e] eqn:Hall; [|done]. intros _.
    apply validate_all_needs in Hall. rewrite Hperm in Hall.
    destruct (validate_all_succeeds df rules' ([], []) Hall) as [acc' ->]. by eexists. }
  exists r'. split; [done|].
  destruct (report_lists _ _ _ Hr) as (Hp & Hf & Ht).
  destruct (report_lists _ _ _ Hr') as (Hp' & Hf' & Ht').
  assert (passed r' ≡ₚ passed r) as Hpp by (by rewrite Hp, Hp', Hperm).
  split; [done|]. split; [by rewrite Hf, Hf', Hperm|].
  split; [by rewrite Ht, Ht', Hperm|].
  revert Hr Hr'. unfold validate_data_quality, mbind, result_mbind, result_bind.
  destruct (validate_all df rules ([], [])) as [acc|e]; [|done].
  destruct (validate_all df rules' ([], [])) as [acc'|e]; [|done].
  intros [= <-] [= <-]. simpl in *. apply Permutation_length in Hpp, Hperm.
  destruct rules, rules'; simpl in *; try done. by rewrite Hpp, Hperm.
Qed.

(** X19: when every rule has one of the three known types, each rule is
    reported once: the two lists together are as long as the rule list. *)
Theorem known_rules_are_all_reported df rules r :
  validate_data_quality df rules = Ok r →
  Forall (λ x, supported rule_types (get x "type")) rules →
  length (passed r) + length (failed r) = total_rules r.
Proof.
  unfold validate_data_quality, mbind, result_mbind, result_bind.
  destruct (validate_all df rules ([], [])) as [acc|e] eqn:Hall; [|done].
  intros [= <-] Hknown. simpl. destruct (validate_all_spec _ _ _ _ Hall) as (_ & _ & ->).
  simpl. f_equal. clear Hall. induction Hknown as [|x rules Hx _ IH]; [done|].
  rewrite filter_cons, decide_True by (by apply known_type_supported). simpl. by rewrite IH.
Qed.

Lemma filter_length_eq {A} (P : A → Prop) `{∀ x, Decision (P x)} (l : list A) :
  length (filter P l) = length l → filter P l = l.
Proof.
  induction l as [|x l IH]; [done|]. rewrite filter_cons.
  destruct (decide (P x)); simpl.
  - intros [= Hlen]. by rewrite IH.
  - intros Hlen. pose proof (length_filter P l). lia.
Qed.

Lemma Qdiv_eq_one (a b : Z) :
  (0 < b)%Z → (inject_Z a / inject_Z b == 1)%Q ↔ a = b.
Proof.
  intros Hb. assert (¬ (inject_Z b == 0)%Q) as Hnz.
  { change 0%Q with (inject_Z 0). rewrite inject_Z_injective. lia. }
  split.
  - intros Heq. apply inject_Z_injective.
    rewrite <- (Qmult_div_r (inject_Z a) (inject_Z b)) by done.
    rewrite Heq. apply Qmult_1_r.
  - intros ->. unfold Qdiv. by apply Qmult_inv_r.
Qed.

(** X20: for a non-empty rule list the pass rate is 1 exactly when every
    rule passed. *)
Theorem pass_rate_one_iff_all_passed df rules r :
  validate_data_quality df rules = Ok r → rules ≠ [] →
  (pass_rate r == 1)%Q ↔ passed r = rules.
Proof.
  intros Hr Hne. destruct (report_lists _ _ _ Hr) as (Hp & _ & _).
  assert (pass_rate r =
          (inject_Z (Z.of_nat (length (passed r))) / inject_Z (Z.of_nat (length rules)))%Q)
    as ->.
  { revert Hr. unfold validate_data_quality, mbind, result_mbind, result_bind.
    destruct (validate_all df rules ([], [])) as [acc|e]; [|done].
    intros [= <-]. simpl. by destruct rules. }
  rewrite Qdiv_eq_one by (destruct rules; [done|simpl; lia]).
  rewrite Nat2Z.inj_iff. split; [|by intros ->].
  rewrite Hp. apply filter_length_eq.
Qed.

Lemma validate_all_app df pre post acc :
  validate_all df (pre ++ post) acc =
  match validate_all df pre acc with
  | Ok acc' => validate_all df post acc'
  | Raise e => Raise e
  end.
Proof.
  revert acc. induction pre as [|rule pre IH]; intros acc; simpl; [done|].
  unfold mbind, result_mbind, result_bind.
  destruct (validate_rule df rule acc); [apply IH|done].
Qed.

Lemma getitem_absent column df :
  (column = Scalar VNone ∨ ∃ c, column = Scalar (VStr c) ∧ c ∉ labels df) →
  pd.getitem column df = Raise KeyError.
Proof.
  intros [->|(c & -> & Hno)]; [done|]. simpl. by rewrite lookup_label_absent.
Qed.

Lemma rule_count_absent df rule :
  known_type rule = true →
  (get rule "column" = Scalar VNone ∨
   ∃ c, get rule "column" = Scalar (VStr c) ∧ c ∉ labels df) →
  rule_count df rule = Raise KeyError.
Proof.
  intros Hk Hcol. apply getitem_absent in Hcol.
  unfold known_type, rule_types in Hk. simpl in Hk.
  unfold rule_count, null_count, duplicate_count, out_of_range,
    mbind, result_mbind, result_bind.
  rewrite Hcol.
  destruct (is_str (get rule "type") "not_null"); [done|].
  destruct (is_str (get rule "type") "unique"); [done|].
  by destruct (is_str (get rule "type") "range").
Qed.

(** X21: a rule of a known type without a column, or with a column that
    the frame does not have, is not reported as failed: it makes the whole
    validation raise [KeyError], whatever the rules after it. *)
Theorem missing_column_aborts_validation df (rule : descriptor) pre post r0 :
  supported rule_types (get rule "type") →
  (rule !! "column" = None ∨
   ∃ c, rule !! "column" = Some (Scalar (VStr c)) ∧ c ∉ labels df) →
  validate_data_quality df pre = Ok r0 →
  validate_data_quality df (pre ++ rule :: post) = Raise KeyError.
Proof.
  intros Hk%known_type_supported Hcol.
  assert (rule_count df rule = Raise KeyError) as Hc.
  { apply rule_count_absent; [done|]. unfold get, get_default.
    destruct Hcol as [->|(c & -> & Hno)]; [by left|right; by exists c]. }
  unfold validate_data_quality, mbind, result_mbind, result_bind.
  rewrite validate_all_app.
  destruct (validate_all df pre ([], [])) as [acc|e]; [|done]. intros _.
  simpl. unfold mbind, result_mbind, result_bind. by rewrite validate_rule_count, Hc.
Qed.

Lemma sum_isnull (s : Series) :
  pd.sum (pd.isnull <$> s) = length (filter (λ v, v = VNone) s).
Proof.
  induction s as [|v s IH]; [done|]. rewrite fmap_cons, sum_cons, filter_cons, IH.
  by destruct v.
Qed.

(** X22: for a [not_null] rule on a column of the frame, the count is the
    number of null cells; the rule passes exactly when the column has no
    null, and otherwise fails with a message that cites the count. *)
Theorem not_null_counts_nulls df (rule : descriptor) c s :
  get rule "type" = Scalar (VStr "not_null") →
  get rule "column" = Scalar (VStr c) →
  pd.lookup_label c df = [s] →
  let n := length (filter (λ v, v = VNone) s) in
  null_count df (get rule "column") = Ok n ∧
  (n = 0 ↔ VNone ∉ s) ∧
  (∀ rules r, rule ∈ rules → validate_data_quality df rules = Ok r →
     (rule ∈ passed r ↔ VNone ∉ s) ∧
     (VNone ∈ s → annotated rule n " null values found" ∈ failed r)).
Proof.
  intros Htype Hcol Hs n.
  assert (null_count df (get rule "column") = Ok n) as Hn.
  { unfold null_count. rewrite Hcol, (getitem_one _ _ _ Hs). simpl.
    by rewrite sum_isnull. }
  assert (rule_count df rule = Ok (Some (n, " null values found"))) as Hc.
  { unfold rule_count. rewrite Htype. simpl. by rewrite Hn. }
  assert (n = 0 ↔ VNone ∉ s) as Hzero.
  { unfold n. rewrite length_zero_iff_nil. split.
    - intros Hnil Hin. assert (VNone ∈ filter (λ v, v = VNone) s) as Hf
        by (by apply list_elem_of_filter).
      rewrite Hnil in Hf. by apply elem_of_nil in Hf.
    - intros Hno. destruct (filter (λ v, v = VNone) s) as [|v l] eqn:Hf; [done|].
      assert (v ∈ filter (λ v, v = VNone) s) as [-> Hin]%list_elem_of_filter
        by (rewrite Hf; left). done. }
  split; [done|]. split; [done|]. intros rules r Hin Hr.
  destruct (report_verdict df rule n _ rules r Hc Hin Hr) as [Hpass Hfail].
  split; [by rewrite Hpass|]. intros Hnull. apply Hfail. rewrite Hzero. tauto.
Qed.
End Reports.

(** ** The properties on the sample data

    From here on the engine is [sample_engine]. *)

#[local] Existing Instance sample_engine.

(** C1 on the sample frame. *)
Lemma transform_empty_is_identity_witness :
  frames sample_world !! 0 = Some sample_frame ∧
  ∃ r w', transform 0 (Some []) sample_world = (Ok r, w') ∧
          frames w' !! r = Some sample_frame.
Proof.
  split; [reflexivity|].
  apply (transform_empty_is_identity sample_world 0 sample_frame (Some []));
    [reflexivity|right; reflexivity].
Defined.

(** C3 for the unknown kind [explode]. *)
Lemma transform_ignores_unknown_operation_witness :
  ¬ supported supported_operations (get (op "explode") "operation") ∧
  (∀ pre post df w,
     transform df (Some (pre ++ op "explode" :: post)) w =
     transform df (Some (pre ++ post)) w) ∧
  (∀ w df T, frames w !! df = Some T →
     ∃ r w', transform df (Some [op "explode"]) w = (Ok r, w') ∧
             frames w' !! r = Some T).
Proof.
  assert (¬ supported supported_operations (get (op "explode") "operation")) as Hno.
  { apply (bool_decide_eq_false_1 _). vm_compute. reflexivity. }
  split; [exact Hno|].
  apply (transform_ignores_unknown_operation (op "explode") Hno).
Defined.

(** C10 on a run that changes its copy in place and then raises. *)
Lemma transform_leaves_input_unchanged_witness :
  frames sample_world !! 0 = Some sample_frame ∧
  fst (transform 0 (Some sample_transformations) sample_world) = Raise KeyError ∧
  frames (snd (transform 0 (Some sample_transformations) sample_world)) !! 0
    = Some sample_frame.
Proof.
  split; [reflexivity|]. split; [vm_compute; reflexivity|].
  apply (transform_leaves_input_unchanged sample_world 0 sample_frame
           (Some sample_transformations)
           (fst (transform 0 (Some sample_transformations) sample_world))
           (snd (transform 0 (Some sample_transformations) sample_world)));
    [reflexivity|apply surjective_pairing].
Defined.


(** C9, amended, for a renaming that merges no labels. *)
Lemma rename_relabels_columns_witness :
  frames two_columns_world !! 0 = Some two_columns ∧
  get rename_a_to_c "operation" = Scalar (VStr "rename") ∧
  get_default rename_a_to_c "mapping" (Mapping ∅) = Mapping {["a" := "c"]} ∧
  ∃ r w' T',
    transform 0 (Some [rename_a_to_c]) two_columns_world = (Ok r, w') ∧
    frames w' !! r = Some T' ∧
    length (columns T') = length (columns two_columns) ∧
    (columns T').*2 = (columns two_columns).*2 ∧
    index T' = index two_columns ∧
    (∀ i c, labels two_columns !! i = Some c →
            ({["a" := "c"]} : gmap string string) !! c = None →
            labels T' !! i = Some c) ∧
    ((∀ c1 c2, c1 ∈ labels two_columns → c2 ∈ labels two_columns →
        pd.rename_label {["a" := "c"]} c1 = pd.rename_label {["a" := "c"]} c2 → c1 = c2) →
     distinct_labels T' = distinct_labels two_columns ∧
     (NoDup (labels two_columns) → NoDup (labels T'))).
Proof.
  split; [reflexivity|]. split; [reflexivity|]. split; [reflexivity|].
  apply (rename_relabels_columns rename_a_to_c {["a" := "c"]} 0 two_columns_world
           two_columns); reflexivity.
Defined.


(** C9 as stated fails: renaming [a] to [b] in a frame that already has a
    column [b] leaves two columns with one label between them, so the
    relabeling is no bijection and the set of labels shrinks. *)
Lemma rename_can_merge_labels :
  transform 0 (Some [rename_a_to_b]) two_columns_world =
    (Ok 2, set_frames (λ fs, fs ++ [two_columns; merged_columns]) two_columns_world) ∧
  labels two_columns = ["a"; "b"] ∧ labels merged_columns = ["b"; "b"] ∧
  distinct_labels two_columns = 2 ∧ distinct_labels merged_columns = 1.
Proof. repeat split; vm_compute; reflexivity. Qed.

(** C2 on a report with one rule passed out of three. *)
Lemma pass_rate_is_fraction_witness :
  validate_data_quality readings sample_rules = Ok sample_report ∧
  total_rules sample_report = length sample_rules ∧
  (sample_rules ≠ [] →
     pass_rate sample_report =
     (inject_Z (Z.of_nat (length (passed sample_report))) /
      inject_Z (Z.of_nat (total_rules sample_report)))%Q) ∧
  (0 <= pass_rate sample_report)%Q ∧ (pass_rate sample_report <= 1)%Q ∧
  validate_data_quality readings [] =
    Ok {| passed := []; failed := []; total_rules := 0; pass_rate := 0 |}.
Proof.
  split; [vm_compute; reflexivity|].
  apply (pass_rate_is_fraction readings sample_rules sample_report).
  vm_compute. reflexivity.
Defined.

(** C4 for the unknown type [freshness]. *)
Lemma unknown_rule_is_skipped_witness :
  ¬ supported rule_types (get (rule_on "freshness" "x") "type") ∧
  (∀ acc, validate_rule readings (rule_on "freshness" "x") acc = Ok acc) ∧
  (∀ rules r, rule_on "freshness" "x" ∈ rules →
     validate_data_quality readings rules = Ok r →
     (rule_on "freshness" "x" ∉ passed r) ∧ (rule_on "freshness" "x" ∉ failed r) ∧
     (∀ n what, annotated (rule_on "freshness" "x") n what ∉ failed r) ∧
     total_rules r = length rules ∧
     length (passed r) + length (failed r) < total_rules r).
Proof.
  assert (¬ supported rule_types (get (rule_on "freshness" "x") "type")) as Hno.
  { apply (bool_decide_eq_false_1 _). vm_compute. reflexivity. }
  split; [exact Hno|].
  apply (unknown_rule_is_skipped readings (rule_on "freshness" "x") Hno).
Defined.

(** C5 on the values [1,1,2,3,3,3]. *)
Lemma unique_counts_repeats_witness :
  get (rule_on "unique" "k") "type" = Scalar (VStr "unique") ∧
  get (rule_on "unique" "k") "column" = Scalar (VStr "k") ∧
  pd.lookup_label "k" repeats = [VInt <$> [1; 1; 2; 3; 3; 3]%Z] ∧
  duplicate_count repeats (get (rule_on "unique" "k") "column") =
    Ok (beyond_first_occurrence (canonical <$> (VInt <$> [1; 1; 2; 3; 3; 3]%Z))).
Proof.
  split; [reflexivity|]. split; [reflexivity|]. split; [reflexivity|].
  apply (unique_counts_repeats repeats (rule_on "unique" "k") "k"
           (VInt <$> [1; 1; 2; 3; 3; 3]%Z)); reflexivity.
Defined.

(** A column that holds [1] and [True]: the second entry repeats the
    first, and the rule fails. *)
Example true_repeats_one :
  pd.duplicated [VInt 1; VBool true] = [false; true] ∧
  validate_data_quality mixed_keys [rule_on "unique" "k"] =
    Ok {| passed := [];
          failed := [<["error" := Scalar (VStr "1 duplicates found")]>
                       (rule_on "unique" "k")];
          total_rules := 1;
          pass_rate := 0 |}.
Proof. split; reflexivity. Qed.

(** C6 on the values [-1,0,5,10,11] with bounds 0 and 10. *)
Lemma range_counts_violations_witness :
  get (range_rule "x" 0 10) "type" = Scalar (VStr "range") ∧
  get (range_rule "x" 0 10) "column" = Scalar (VStr "x") ∧
  get (range_rule "x" 0 10) "min" = Scalar (VInt 0) ∧
  get (range_rule "x" 0 10) "max" = Scalar (VInt 10) ∧
  pd.lookup_label "x" readings = [VInt <$> [-1; 0; 5; 10; 11]%Z] ∧
  pd.numeric (VInt <$> [-1; 0; 5; 10; 11]%Z) = true ∧
  out_of_range readings (get (range_rule "x" 0 10) "column")
    (get (range_rule "x" 0 10) "min") (get (range_rule "x" 0 10) "max") =
    Ok (violations 0 10 (VInt <$> [-1; 0; 5; 10; 11]%Z)).
Proof.
  repeat (split; [reflexivity|]).
  apply (range_counts_violations readings (range_rule "x" 0 10) "x"
           (VInt <$> [-1; 0; 5; 10; 11]%Z) 0 10); reflexivity.
Defined.

(** C7 on a run that takes one second. *)
Lemma throughput_is_rows_over_duration_witness :
  sample_run sample_world = (Ok sample_stats, snd (sample_run sample_world)) ∧
  ((0 < duration_seconds sample_stats)%Q →
     rows_per_second sample_stats =
     (inject_Z (Z.of_nat (output_rows sample_stats)) / duration_seconds sample_stats)%Q) ∧
  ((duration_seconds sample_stats == 0)%Q → rows_per_second sample_stats = 0%Q).
Proof.
  assert (sample_run sample_world = (Ok sample_stats, snd (sample_run sample_world)))
    as Hrun by (vm_compute; reflexivity).
  split; [exact Hrun|].
  exact (throughput_is_rows_over_duration sample_pipeline "raw/data.csv"
           "processed/data.parquet" (Some [op "drop_nulls"]) "parquet" sample_world
           sample_stats (snd (sample_run sample_world)) Hrun).
Defined.

(** A run during which the clock does not move: the duration is 0 and so
    is the throughput. *)
Example frozen_clock_throughput :
  ∃ st, fst (sample_run frozen_world) = Ok st ∧
        duration_seconds st = Qmake 0 1000000 ∧ rows_per_second st = 0%Q.
Proof. eexists. vm_compute. repeat split. Qed.

(** X1 on a list whose third operation raises. *)
Lemma transform_folds_effects_witness :
  frames sample_world !! 0 = Some sample_frame ∧
  effects sample_transformations sample_frame = Raise KeyError ∧
  ∃ w', transform 0 (Some sample_transformations) sample_world = (Raise KeyError, w').
Proof.
  split; [reflexivity|]. split; [vm_compute; reflexivity|].
  exact (transform_folds_effects sample_world 0 sample_frame (Some sample_transformations)
           eq_refl).
Defined.

(** X2 on the sample frame. *)
Lemma transform_returns_new_frame_witness :
  transform 0 (Some [op "drop_nulls"]) sample_world =
    (Ok 2, set_frames (λ fs, fs ++ [clean_frame]) after_copy) ∧
  0 < length (frames sample_world) ∧ length (frames sample_world) ≤ 2 ∧
  2 < length (frames (set_frames (λ fs, fs ++ [clean_frame]) after_copy)).
Proof.
  assert (transform 0 (Some [op "drop_nulls"]) sample_world =
            (Ok 2, set_frames (λ fs, fs ++ [clean_frame]) after_copy)) as Hrun
    by (vm_compute; reflexivity).
  split; [exact Hrun|].
  exact (transform_returns_new_frame 0 (Some [op "drop_nulls"]) sample_world 2 _ Hrun).
Defined.

(** X3 on the sample frame, whose third row has a null. *)
Lemma drop_nulls_leaves_no_nulls_witness :
  get (op "drop_nulls") "operation" = Scalar (VStr "drop_nulls") ∧
  op "drop_nulls" !! "columns" = None ∧
  frames sample_world !! 0 = Some sample_frame ∧
  ∃ r w' T',
    transform 0 (Some [op "drop_nulls"]) sample_world = (Ok r, w') ∧
    frames w' !! r = Some T' ∧
    records T' = filter complete (records sample_frame) ∧
    no_nulls T' ∧ labels T' = labels sample_frame ∧
    index T' `sublist_of` index sample_frame ∧ len T' ≤ len sample_frame ∧
    (no_nulls sample_frame → well_formed sample_frame → T' = sample_frame).
Proof.
  split; [reflexivity|]. split; [reflexivity|]. split; [reflexivity|].
  apply (drop_nulls_leaves_no_nulls (op "drop_nulls") sample_world 0 sample_frame);
    reflexivity.
Defined.

(** X4 for the subset [value]. *)
Lemma drop_nulls_subset_leaves_no_nulls_witness :
  get drop_by_value "operation" = Scalar (VStr "drop_nulls") ∧
  drop_by_value !! "columns" = Some (Names ["value"]) ∧
  (∀ c, c ∈ ["value"] → c ∈ labels sample_frame) ∧
  frames sample_world !! 0 = Some sample_frame ∧
  ∃ r w' T',
    transform 0 (Some [drop_by_value]) sample_world = (Ok r, w') ∧
    frames w' !! r = Some T' ∧
    records T' = filter (complete_on ["value"]) (records sample_frame) ∧
    (∀ c s v, c ∈ ["value"] → (c, s) ∈ columns T' → v ∈ s → v ≠ VNone) ∧
    labels T' = labels sample_frame ∧
    index T' `sublist_of` index sample_frame ∧ len T' ≤ len sample_frame.
Proof.
  assert (∀ c, c ∈ ["value"] → c ∈ labels sample_frame) as Hall.
  { intros c ->%list_elem_of_singleton. apply (bool_decide_eq_true_1 _). reflexivity. }
  split; [reflexivity|]. split; [reflexivity|]. split; [exact Hall|].
  split; [reflexivity|].
  exact (drop_nulls_subset_leaves_no_nulls drop_by_value ["value"] sample_world 0
           sample_frame eq_refl eq_refl Hall eq_refl).
Defined.

(** X6 for the column [processed_date]. *)
Lemma add_column_overwrites_and_is_idempotent_witness :
  get add_date "operation" = Scalar (VStr "add_column") ∧
  add_date !! "name" = Some (Scalar (VStr "processed_date")) ∧
  add_date !! "value" = Some (Scalar (VStr "2024-01-01")) ∧
  frames sample_world !! 0 = Some sample_frame ∧
  ∃ T',
    (∃ r w', transform 0 (Some [add_date]) sample_world = (Ok r, w') ∧
             frames w' !! r = Some T') ∧
    (∃ r w', transform 0 (Some [add_date; add_date]) sample_world = (Ok r, w') ∧
             frames w' !! r = Some T') ∧
    index T' = index sample_frame ∧ ("processed_date" ∈ labels T') ∧
    (∀ s, s ∈ pd.lookup_label "processed_date" T' →
          s = replicate (len sample_frame) (VStr "2024-01-01")) ∧
    (∀ c', c' ≠ "processed_date" →
           pd.lookup_label c' T' = pd.lookup_label c' sample_frame) ∧
    labels T' = (if decide ("processed_date" ∈ labels sample_frame)
                 then labels sample_frame
                 else labels sample_frame ++ ["processed_date"]).
Proof.
  do 4 (split; [reflexivity|]).
  apply (add_column_overwrites_and_is_idempotent add_date "processed_date"
           (VStr "2024-01-01") sample_world 0 sample_frame); reflexivity.
Defined.

(** X5: renaming [a] to [c] and back. *)
Lemma rename_there_and_back_witness :
  get rename_a_to_c "operation" = Scalar (VStr "rename") ∧
  rename_a_to_c !! "mapping" = Some (Mapping {["a" := "c"]}) ∧
  get rename_c_to_a "operation" = Scalar (VStr "rename") ∧
  rename_c_to_a !! "mapping" = Some (Mapping {["c" := "a"]}) ∧
  ("c" ∉ labels two_columns) ∧
  frames two_columns_world !! 0 = Some two_columns ∧
  ∃ r w', transform 0 (Some [rename_a_to_c; rename_c_to_a]) two_columns_world = (Ok r, w') ∧
          frames w' !! r = Some two_columns.
Proof.
  assert ("c" ∉ labels two_columns) as Hno.
  { apply (bool_decide_eq_false_1 _). reflexivity. }
  do 4 (split; [reflexivity|]). split; [exact Hno|]. split; [reflexivity|].
  exact (rename_there_and_back rename_a_to_c rename_c_to_a "a" "c" two_columns_world 0
           two_columns eq_refl eq_refl eq_refl eq_refl Hno eq_refl).
Defined.

(** X7 with an engine whose cast succeeds. *)
Lemma convert_type_touches_one_label_witness :
  get convert_id "operation" = Scalar (VStr "convert_type") ∧
  convert_id !! "column" = Some (Scalar (VStr "id")) ∧
  frames sample_world !! 0 = Some sample_frame ∧
  transform (H:=casting_engine) 0 (Some [convert_id]) sample_world =
    (Ok 1, after_copy) ∧
  ∃ T' cols',
    frames after_copy !! 1 = Some T' ∧ ("id" ∈ labels sample_frame) ∧
    @astype casting_engine (get convert_id "dtype")
      (pd.lookup_label "id" sample_frame) = Ok cols' ∧
    pd.lookup_label "id" T' = cols' ∧
    labels T' = labels sample_frame ∧ index T' = index sample_frame ∧
    (∀ c', c' ≠ "id" → pd.lookup_label c' T' = pd.lookup_label c' sample_frame).
Proof.
  assert (transform (H:=casting_engine) 0 (Some [convert_id]) sample_world =
            (Ok 1, after_copy)) as Hrun by (vm_compute; reflexivity).
  do 3 (split; [reflexivity|]). split; [exact Hrun|].
  exact (convert_type_touches_one_label (H:=casting_engine) convert_id "id" sample_world 0
           sample_frame 1 after_copy eq_refl eq_refl eq_refl Hrun).
Defined.

(** X8 on a bucket with a text object and without [raw/none.csv]. *)
Lemma extract_fetches_before_format_check_witness :
  cloud_provider sample_pipeline = "aws" ∧
  bucket_name sample_pipeline = Some "my-data-bucket" ∧
  s3 notes_world !! "my-data-bucket" = Some notes_objects ∧
  notes_objects !! "raw/none.csv" = None ∧
  is_Some (notes_objects !! "raw/notes.txt") ∧
  extract_from_s3 sample_pipeline "raw/none.csv" notes_world
    = (Raise ClientError, notes_world) ∧
  extract_from_s3 sample_pipeline "raw/notes.txt" notes_world
    = (Raise ValueError, notes_world).
Proof.
  assert (is_Some (notes_objects !! "raw/notes.txt")) as Hsome by (by eexists).
  do 4 (split; [reflexivity|]). split; [exact Hsome|]. split.
  - exact (proj1 (extract_fetches_before_format_check sample_pipeline "raw/none.csv"
                    notes_world "my-data-bucket" notes_objects eq_refl eq_refl eq_refl)
             eq_refl).
  - exact (proj2 (extract_fetches_before_format_check sample_pipeline "raw/notes.txt"
                    notes_world "my-data-bucket" notes_objects eq_refl eq_refl eq_refl)
             Hsome eq_refl eq_refl eq_refl).
Defined.

(** X9 for the CSV object of the sample bucket. *)
Lemma extract_decodes_by_extension_witness :
  cloud_provider sample_pipeline = "aws" ∧
  bucket_name sample_pipeline = Some "my-data-bucket" ∧
  s3 notes_world !! "my-data-bucket" = Some notes_objects ∧
  notes_objects !! ("raw/data" +:+ ".csv") = Some "id,value" ∧
  extract_from_s3 sample_pipeline ("raw/data" +:+ ".csv") notes_world =
    match read_csv "id,value" with
    | Ok T => (Ok (length (frames notes_world)), set_frames (λ fs, fs ++ [T]) notes_world)
    | Raise e => (Raise e, notes_world)
    end.
Proof.
  do 4 (split; [reflexivity|]).
  exact (proj1 (extract_decodes_by_extension sample_pipeline "raw/data" "id,value"
                  notes_world "my-data-bucket" notes_objects ".csv"
                  eq_refl eq_refl eq_refl eq_refl) eq_refl).
Defined.

(** X10 for a load that returns. *)
Lemma load_to_s3_writes_one_object_witness :
  frames sample_world !! 0 = Some sample_frame ∧
  load_to_s3 sample_pipeline 0 "out/data.parquet" "parquet" sample_world =
    (Ok (), loaded_world) ∧
  frames loaded_world = frames sample_world ∧ ticks loaded_world = ticks sample_world ∧
  ∃ b objs buffer,
    cloud_provider sample_pipeline = "aws" ∧ bucket_name sample_pipeline = Some b ∧
    s3 sample_world !! b = Some objs ∧ encode "parquet" sample_frame = Ok buffer ∧
    s3 loaded_world = <[b := <["out/data.parquet" := buffer]> objs]> (s3 sample_world).
Proof.
  assert (load_to_s3 sample_pipeline 0 "out/data.parquet" "parquet" sample_world =
            (Ok (), loaded_world)) as Hrun by (vm_compute; reflexivity).
  split; [reflexivity|]. split; [exact Hrun|].
  exact (load_to_s3_writes_one_object sample_pipeline 0 "out/data.parquet" "parquet"
           sample_world sample_frame (Ok ()) loaded_world eq_refl Hrun).
Defined.


(** X12 on the run of [sample_run]. *)
Lemma run_etl_pipeline_end_to_end_witness :
  sample_run sample_world = (Ok sample_stats, snd (sample_run sample_world)) ∧
  ∃ b objs body T T' buffer,
    cloud_provider sample_pipeline = "aws" ∧ bucket_name sample_pipeline = Some b ∧
    s3 sample_world !! b = Some objs ∧ objs !! "raw/data.csv" = Some body ∧
    decode "raw/data.csv" body = Ok T ∧
    effects (default [] (Some [op "drop_nulls"])) T = Ok T' ∧
    encode "parquet" T' = Ok buffer ∧
    s3 (snd (sample_run sample_world)) =
      <[b := <["processed/data.parquet" := buffer]> objs]> (s3 sample_world) ∧
    input_rows sample_stats = len T ∧ output_rows sample_stats = len T' ∧
    source sample_stats = "raw/data.csv" ∧
    destination sample_stats = "processed/data.parquet" ∧
    duration_seconds sample_stats =
      total_seconds (clock sample_world (S (ticks sample_world)) -
                     clock sample_world (ticks sample_world)) ∧
    ticks (snd (sample_run sample_world)) = S (S (ticks sample_world)).
Proof.
  assert (sample_run sample_world = (Ok sample_stats, snd (sample_run sample_world)))
    as Hrun by (vm_compute; reflexivity).
  split; [exact Hrun|].
  exact (run_etl_pipeline_end_to_end sample_pipeline "raw/data.csv"
           "processed/data.parquet" (Some [op "drop_nulls"]) "parquet" sample_world
           sample_stats (snd (sample_run sample_world)) Hrun).
Defined.


(** X14 on a run whose third operation raises. *)
Lemma run_failure_writes_nothing_witness :
  fst (failing_run sample_world) = Raise KeyError ∧
  s3 (snd (failing_run sample_world)) = s3 sample_world.
Proof.
  split; [vm_compute; reflexivity|].
  apply (run_failure_writes_nothing sample_pipeline "raw/data.csv"
           "processed/data.parquet" (Some sample_transformations) "parquet" sample_world
           KeyError (snd (failing_run sample_world))).
  vm_compute. reflexivity.
Defined.

(** X15 on a run with one operation of an unknown kind. *)
Lemma run_without_operations_copies_witness :
  copying_run sample_world = (Ok copied_stats, snd (copying_run sample_world)) ∧
  Forall (λ t, ¬ supported supported_operations (get t "operation"))
    (default [] (Some [op "explode"])) ∧
  output_rows copied_stats = input_rows copied_stats ∧
  ∃ b objs body T buffer,
    bucket_name sample_pipeline = Some b ∧ s3 sample_world !! b = Some objs ∧
    objs !! "raw/data.csv" = Some body ∧ decode "raw/data.csv" body = Ok T ∧
    encode "parquet" T = Ok buffer ∧
    s3 (snd (copying_run sample_world)) =
      <[b := <["processed/data.parquet" := buffer]> objs]> (s3 sample_world).
Proof.
  assert (copying_run sample_world = (Ok copied_stats, snd (copying_run sample_world)))
    as Hrun by (vm_compute; reflexivity).
  assert (Forall (λ t, ¬ supported supported_operations (get t "operation"))
            (default [] (Some [op "explode"]))) as Hno.
  { constructor; [|constructor]. apply (bool_decide_eq_false_1 _). reflexivity. }
  split; [exact Hrun|]. split; [exact Hno|].
  exact (run_without_operations_copies sample_pipeline "raw/data.csv"
           "processed/data.parquet" (Some [op "explode"]) "parquet" sample_world
           copied_stats (snd (copying_run sample_world)) Hrun Hno).
Defined.

(** X16 for a pipeline built for ['gcp']. *)
Lemma pipeline_without_s3_client_cannot_run_witness :
  cloud_provider gcp_pipeline ≠ "aws" ∧
  (∀ key w, extract_from_s3 gcp_pipeline key w = (Raise AttributeError, w)) ∧
  (∀ df key format w T buffer,
     frames w !! df = Some T → encode format T = Ok buffer →
     load_to_s3 gcp_pipeline df key format w = (Raise AttributeError, w)) ∧
  (∀ source_key destination_key ts format w,
     run_etl_pipeline gcp_pipeline source_key destination_key ts format w =
     (Raise AttributeError, tick w)).
Proof.
  assert (cloud_provider gcp_pipeline ≠ "aws") as Hno by discriminate.
  split; [exact Hno|]. exact (pipeline_without_s3_client_cannot_run gcp_pipeline Hno).
Defined.

(** X17 on the sample rules. *)
Lemma report_lists_follow_rule_order_witness :
  validate_data_quality readings sample_rules = Ok sample_report ∧
  passed sample_report = filter (λ x, passes readings x = true) sample_rules ∧
  failed sample_report = omap (failure readings) sample_rules ∧
  passed sample_report `sublist_of` sample_rules.
Proof.
  assert (validate_data_quality readings sample_rules = Ok sample_report) as Hr
    by (vm_compute; reflexivity).
  split; [exact Hr|]. exact (report_lists_follow_rule_order readings sample_rules _ Hr).
Defined.

(** X18 on the sample rules in reverse. *)
Lemma validation_is_order_independent_witness :
  validate_data_quality readings sample_rules = Ok sample_report ∧
  sample_rules ≡ₚ reverse sample_rules ∧
  ∃ r', validate_data_quality readings (reverse sample_rules) = Ok r' ∧
        passed r' ≡ₚ passed sample_report ∧ failed r' ≡ₚ failed sample_report ∧
        total_rules r' = total_rules sample_report ∧
        pass_rate r' = pass_rate sample_report.
Proof.
  assert (validate_data_quality readings sample_rules = Ok sample_report) as Hr
    by (vm_compute; reflexivity).
  assert (sample_rules ≡ₚ reverse sample_rules) as Hperm
    by (symmetry; apply reverse_Permutation).
  split; [exact Hr|]. split; [exact Hperm|].
  exact (validation_is_order_independent readings sample_rules (reverse sample_rules) _
           Hr Hperm).
Defined.

(** X19 on two rules of known types. *)
Lemma known_rules_are_all_reported_witness :
  validate_data_quality readings known_rules = Ok known_report ∧
  Forall (λ x, supported rule_types (get x "type")) known_rules ∧
  length (passed known_report) + length (failed known_report) = total_rules known_report.
Proof.
  assert (validate_data_quality readings known_rules = Ok known_report) as Hr
    by (vm_compute; reflexivity).
  assert (Forall (λ x, supported rule_types (get x "type")) known_rules) as Hk.
  { repeat constructor; apply (bool_decide_eq_true_1 _); reflexivity. }
  split; [exact Hr|]. split; [exact Hk|].
  exact (known_rules_are_all_reported readings known_rules known_report Hr Hk).
Defined.

(** X20 on the sample rules, one of which fails. *)
Lemma pass_rate_one_iff_all_passed_witness :
  validate_data_quality readings sample_rules = Ok sample_report ∧
  sample_rules ≠ [] ∧
  ((pass_rate sample_report == 1)%Q ↔ passed sample_report = sample_rules).
Proof.
  assert (validate_data_quality readings sample_rules = Ok sample_report) as Hr
    by (vm_compute; reflexivity).
  assert (sample_rules ≠ []) as Hne by discriminate.
  split; [exact Hr|]. split; [exact Hne|].
  exact (pass_rate_one_iff_all_passed readings sample_rules sample_report Hr Hne).
Defined.

(** X21 for the absent column [zz], after a rule that passes. *)
Lemma missing_column_aborts_validation_witness :
  supported rule_types (get (rule_on "unique" "zz") "type") ∧
  ("zz" ∉ labels readings) ∧
  validate_data_quality readings [rule_on "not_null" "x"] = Ok one_passed ∧
  validate_data_quality readings
    ([rule_on "not_null" "x"] ++ rule_on "unique" "zz" :: [range_rule "x" 0 10]) =
    Raise KeyError.
Proof.
  assert (supported rule_types (get (rule_on "unique" "zz") "type")) as Hk.
  { apply (bool_decide_eq_true_1 _). reflexivity. }
  assert ("zz" ∉ labels readings) as Hno.
  { apply (bool_decide_eq_false_1 _). reflexivity. }
  assert (validate_data_quality readings [rule_on "not_null" "x"] = Ok one_passed) as Hr
    by (vm_compute; reflexivity).
  split; [exact Hk|]. split; [exact Hno|]. split; [exact Hr|].
  exact (missing_column_aborts_validation readings (rule_on "unique" "zz")
           [rule_on "not_null" "x"] [range_rule "x" 0 10] one_passed Hk
           (or_intror (ex_intro _ "zz" (conj eq_refl Hno))) Hr).
Defined.

(** X22 on the column [value] of the sample frame, which has one null. *)
Lemma not_null_counts_nulls_witness :
  get (rule_on "not_null" "value") "type" = Scalar (VStr "not_null") ∧
  get (rule_on "not_null" "value") "column" = Scalar (VStr "value") ∧
  pd.lookup_label "value" sample_frame = [[VInt 5; VInt (-3); VNone]] ∧
  null_count sample_frame (get (rule_on "not_null" "value") "column") =
    Ok (length (filter (λ v, v = VNone) [VInt 5; VInt (-3); VNone])).
Proof.
  do 3 (split; [reflexivity|]).
  apply (not_null_counts_nulls sample_frame (rule_on "not_null" "value") "value"
           [VInt 5; VInt (-3); VNone]); reflexivity.
Defined.
